(** * pipe_supertask: the quantum graph builder and the Quantum class

    A shallow embedding of
      - python/lsst/pipe/supertask/graphBuilder.py (class [GraphBuilder]) and
      - python/lsst/pipe/supertask/quantum.py (class [Quantum]),
    followed by the properties of the graph construction that the
    specification states.

    Python values are modelled as follows.
      - An exception aborts the whole call: fallible code lives in the
        [result] monad, [Raise e] being the raised exception.
      - A [dict] whose iteration order is observable (the three levels of
        [taskQuantaInputs] and [taskQuantaOutputs]) is an insertion-ordered
        association list, module [dict].
      - A [dict] or [set] that is only looked up (a data id, the dataset
        references of a row, the data-unit schema, the name sets of the IO
        aggregation) is a [gmap] or [gset].
      - Objects that are copied or shared ([TaskDef]) live in a heap of
        object identities, module [heap]. *)

From Stdlib Require Import ZArith.
From stdpp Require Import base option list sorting strings gmap.

Set Default Proof Using "Type".
#[local] Set Warnings "-clear-no-such-hyp".

(** ** Exceptions and the [result] monad *)

Inductive result (E A : Type) : Type :=
  | Ok (a : A)
  | Raise (e : E).
Arguments Ok {E A} a.
Arguments Raise {E A} e.

#[global] Instance result_ret {E} : MRet (result E) := λ _ a, Ok a.

#[global] Instance result_bind {E} : MBind (result E) := λ _ _ k m,
  match m with
  | Ok a => k a
  | Raise e => Raise e
  end.

(** [for x in xs: acc = body(acc, x)], where the body may raise. *)
Fixpoint foldM {E A B} (body : B → A → result E B) (acc : B) (xs : list A)
    : result E B :=
  match xs with
  | [] => Ok acc
  | x :: xs' => acc' ← body acc x; foldM body acc' xs'
  end.

(** A generator expression that is consumed whole:
    [tuple(f(x) for x in xs)], where [f] may raise. *)
Fixpoint forM {E A B} (f : A → result E B) (xs : list A) : result E (list B) :=
  match xs with
  | [] => Ok []
  | x :: xs' => y ← f x; ys ← forM f xs'; Ok (y :: ys)
  end.

Definition succeeds {E A} (m : result E A) : Prop := ∃ a, m = Ok a.
Definition raises {E A} (m : result E A) : Prop := ∃ e, m = Raise e.

(** ** Insertion-ordered dictionaries *)

Module dict.
Section dict.
Context {K V : Type} `{EqDecision K}.

Definition t := list (K * V).

Definition empty : t := [].

(** [d.get(k)] *)
Fixpoint get (d : t) (k : K) : option V :=
  match d with
  | [] => None
  | (k', v) :: d' => if decide (k' = k) then Some v else get d' k
  end.

(** [d[k] = v]: an existing key keeps its position, a new one goes last. *)
Fixpoint setitem (d : t) (k : K) (v : V) : t :=
  match d with
  | [] => [(k, v)]
  | (k', v') :: d' =>
      if decide (k' = k) then (k', v) :: d' else (k', v') :: setitem d' k v
  end.

(** [d.setdefault(k, v)]: the value now stored under [k], and the dict. *)
Definition setdefault (d : t) (k : K) (v : V) : V * t :=
  match get d k with
  | Some v' => (v', d)
  | None => (v, d ++ [(k, v)])
  end.

(** [list(d)], [list(d.values())] *)
Definition keys (d : t) : list K := d.*1.
Definition values (d : t) : list V := d.*2.
End dict.
Arguments t : clear implicits.
End dict.

(** ** Data model of the graph builder *)

(** Values of the columns of a data id. *)
Inductive Value :=
  | VInt (z : Z)
  | VStr (s : string).

#[global] Instance Value_eq_dec : EqDecision Value.
Proof. solve_decision. Defined.

(** [lsst.daf.butler.DatasetType]: only its [name] is read here; it is
    hashed and compared as a dict key. *)
Record DatasetType := mkDatasetType {
  name : string;
  storageClass : string;
}.

#[global] Instance DatasetType_eq_dec : EqDecision DatasetType.
Proof. solve_decision. Defined.

#[global] Instance DatasetType_countable : Countable DatasetType.
Proof.
  refine (inj_countable' (λ d, (name d, storageClass d))
                         (λ p, mkDatasetType p.1 p.2) _).
  by intros [].
Defined.

(** [lsst.daf.butler.DatasetRef]: [id] is [None] until the dataset exists. *)
Record DatasetRef := mkDatasetRef {
  datasetType : DatasetType;
  dataId : gmap string Value;
  id : option Z;
}.

#[global] Instance DatasetRef_eq_dec : EqDecision DatasetRef.
Proof. solve_decision. Defined.

(** A row of [registry.selectDataUnits]. *)
Record Row := mkRow {
  row_dataId : gmap string Value;
  row_datasetRefs : gmap DatasetType DatasetRef;
}.

(** [registry._schema.dataUnits[name]]: only [link] is read. *)
Record DataUnit := mkDataUnit {
  link : list string;
}.

Definition TaskClass := string.

(** [taskDef.config.quantum.units] *)
Record QuantumConfig := mkQuantumConfig { units : list string }.
Record Config := mkConfig { quantum : QuantumConfig }.

#[global] Instance QuantumConfig_eq_dec : EqDecision QuantumConfig.
Proof. solve_decision. Defined.

#[global] Instance Config_eq_dec : EqDecision Config.
Proof. solve_decision. Defined.

Record TaskDef := mkTaskDef {
  taskName : string;
  config : Config;
  taskClass : option TaskClass;
  label : string;
}.

#[global] Instance TaskDef_eq_dec : EqDecision TaskDef.
Proof. solve_decision. Defined.

(** The namedtuple [_TaskDatasetTypes]. *)
Record _TaskDatasetTypes := mkTaskDatasetTypes {
  taskDef : TaskDef;
  inputs : list DatasetType;
  outputs : list DatasetType;
}.

Inductive Exception :=
  | KeyError
  | UserExpressionError (expr : string) (exc : string)
  | OutputExistsError (taskName : string) (refs : list DatasetRef)
  | TaskFactoryError (msg : string)
  | RegistryError (msg : string).

Abbreviation res := (result Exception).

(** [m[k]] on a looked-up mapping. *)
Definition getitem `{Lookup K V M} (m : M) (k : K) : res V :=
  match m !! k with
  | Some v => Ok v
  | None => Raise KeyError
  end.

(** [d[k]] on an insertion-ordered dict. *)
Definition dict_getitem {K V} `{EqDecision K} (d : dict.t K V) (k : K) : res V :=
  match dict.get d k with
  | Some v => Ok v
  | None => Raise KeyError
  end.

(** ** graphBuilder.py *)

(** *** [GraphBuilder._makeFullIODatasetTypes] *)

(** The two inner loops of the aggregation:
    [names.add(dsType.name); allDatasetTypes[dsType.name] = dsType]. *)
Definition collectNames (acc : gmap string DatasetType * gset string)
    (dsTypes : list DatasetType) : gmap string DatasetType * gset string :=
  foldl (λ '(allDatasetTypes, names) dsType,
           (<[name dsType := dsType]> allDatasetTypes, names ∪ {[name dsType]}))
        acc dsTypes.

(** The loop over [taskDatasets]: the state is
    [(allDatasetTypes, inputs, outputs)]. *)
Definition collectAll (taskDatasets : list _TaskDatasetTypes)
    : gmap string DatasetType * gset string * gset string :=
  foldl (λ '(allDatasetTypes, ins, outs) taskDs,
           let '(allDatasetTypes, ins) :=
             collectNames (allDatasetTypes, ins) (inputs taskDs) in
           let '(allDatasetTypes, outs) :=
             collectNames (allDatasetTypes, outs) (outputs taskDs) in
           (allDatasetTypes, ins, outs))
        (∅, ∅, ∅) taskDatasets.

(** [set(allDatasetTypes[name] for name in names)] *)
Definition typesOfNames (allDatasetTypes : gmap string DatasetType)
    (names : gset string) : res (gset DatasetType) :=
  dsTypes ← forM (getitem allDatasetTypes) (elements names);
  Ok (list_to_set dsTypes).

Definition _makeFullIODatasetTypes (taskDatasets : list _TaskDatasetTypes)
    : res (gset DatasetType * gset DatasetType) :=
  let '(allDatasetTypes, ins, outs) := collectAll taskDatasets in
  (* remove outputs from inputs *)
  let ins := ins ∖ outs in
  ins ← typesOfNames allDatasetTypes ins;
  outs ← typesOfNames allDatasetTypes outs;
  Ok (ins, outs).

(** *** The collaborators of the builder *)

(** The task factory of the builder: [loadTaskClass(taskName)] returns
    the class and its fully-qualified name, or raises. *)
Record TaskFactory := mkTaskFactory {
  loadTaskClass : string → res (TaskClass * string);
}.

Definition OriginInfo := string.

(** The registry: [selectDataUnits(originInfo, expr, inputs, outputs)]
    yields rows or raises; [_schema.dataUnits] maps a unit name to its
    [DataUnit]. *)
Record Registry := mkRegistry {
  selectDataUnits : OriginInfo → option string →
                    gset DatasetType → gset DatasetType → res (list Row);
  schema_dataUnits : gmap string DataUnit;
}.

(** [GraphBuilder.__init__]: the attributes of [self]. *)
Record GraphBuilder := mkGraphBuilder {
  taskFactory : TaskFactory;
  registry : Registry;
  dataUnits : gmap string DataUnit;
  skipExisting : bool;
}.

Definition GraphBuilder__init__ (taskFactory : TaskFactory) (registry : Registry)
    (skipExisting : bool) : GraphBuilder :=
  {| taskFactory := taskFactory;
     registry := registry;
     dataUnits := schema_dataUnits registry;
     skipExisting := skipExisting |}.

(** *** [GraphBuilder._loadTaskClass]

    Task definitions are objects: a pipeline holds references to them.
    [heap.t] maps an object identity to the attributes of the object. *)
Module heap.
Definition loc := positive.
Abbreviation t := (gmap loc TaskDef).

#[global] Instance TaskDef_inhabited : Inhabited TaskDef :=
  populate (mkTaskDef "" (mkConfig (mkQuantumConfig [])) None "").

(** Attribute access through a reference. *)
Definition deref (h : t) (l : loc) : TaskDef := h !!! l.

(** [copy.copy(obj)]: a new object with the same attribute values. *)
Definition copy (h : t) (l : loc) : loc * t :=
  let l' := fresh (dom h) in (l', <[l' := deref h l]> h).

(** [obj.taskClass = c], [obj.taskName = n] *)
Definition set_taskClass (h : t) (l : loc) (c : option TaskClass) : t :=
  let o := deref h l in
  <[l := mkTaskDef (taskName o) (config o) c (label o)]> h.
Definition set_taskName (h : t) (l : loc) (n : string) : t :=
  let o := deref h l in
  <[l := mkTaskDef n (config o) (taskClass o) (label o)]> h.
End heap.

Definition _loadTaskClass (self : GraphBuilder) (h : heap.t) (taskDef : heap.loc)
    : res (heap.loc * heap.t) :=
  match taskClass (heap.deref h taskDef) with
  | None =>
      '(tClass, tName) ←
        loadTaskClass (taskFactory self) (taskName (heap.deref h taskDef));
      let '(taskDef, h) := heap.copy h taskDef in
      let h := heap.set_taskClass h taskDef (Some tClass) in
      let h := heap.set_taskName h taskDef tName in
      Ok (taskDef, h)
  | Some _ => Ok (taskDef, h)
  end.

(** *** The graph and its quanta *)

(** [lsst.daf.butler.Quantum] as the builder uses it: created empty, then
    filled by [addOutput] and [addPredictedInput]; the record keeps the
    references in the order of the calls. *)
Module butler.
Record Quantum := mkQuantum {
  predictedInputs : list DatasetRef;
  outputs : list DatasetRef;
}.
Definition new : Quantum := mkQuantum [] [].
Definition addPredictedInput (q : Quantum) (ref : DatasetRef) : Quantum :=
  mkQuantum (predictedInputs q ++ [ref]) (outputs q).
Definition addOutput (q : Quantum) (ref : DatasetRef) : Quantum :=
  mkQuantum (predictedInputs q) (outputs q ++ [ref]).
End butler.

(** Modelled from the spec: the module [graph] of this package, whose
    [QuantumGraphNodes] and [QuantumGraph] the builder fills.  A graph node
    is a task definition with the ordered sequence of its quanta, a graph
    is the ordered sequence of nodes. *)
Record QuantumGraphNodes := mkQuantumGraphNodes {
  node_taskDef : TaskDef;
  quanta : list butler.Quantum;
}.
Abbreviation QuantumGraph := (list QuantumGraphNodes).

(** *** [GraphBuilder._makeGraph] *)

(** The three levels of [taskQuantaInputs] and [taskQuantaOutputs]:
    quantum key, then dataset type, then the key of the reference. *)
Abbreviation RefKey := (list (string * Value)).
Abbreviation QKey := (list (string * Value)).
Abbreviation DataRefs := (dict.t RefKey DatasetRef).
Abbreviation QuantumIO := (dict.t DatasetType DataRefs).
Abbreviation TaskQuanta := (dict.t QKey QuantumIO).

(** The order of [sorted] on the items of a dict: the keys of a dict are
    distinct, so two items never tie on the column name. *)
Definition item_le (x y : string * Value) : Prop :=
  String.leb x.1 y.1 = true.

#[global] Instance item_le_dec : RelDecision item_le.
Proof. intros x y. unfold item_le. apply _. Defined.

(** [tuple(sorted(dataRef.dataId.items()))] *)
Definition _dataRefKey (dataRef : DatasetRef) : RefKey :=
  merge_sort item_le (map_to_list (dataId dataRef)).

(** Lines 273-276: the link columns of the quantum units of a task. *)
Definition quantumLinks (self : GraphBuilder) (taskDss : _TaskDatasetTypes)
    : res (list string) :=
  foldM (λ qlinks dataUnitName,
           dataUnit ← getitem (dataUnits self) dataUnitName;
           Ok (qlinks ++ link dataUnit))
        [] (units (quantum (config (taskDef taskDss)))).

(** Lines 282: [tuple((col, row.dataId[col]) for col in qlinks)] *)
Definition quantumKey (qlinks : list string) (row : Row) : res QKey :=
  forM (λ col, v ← getitem (row_dataId row) col; Ok (col, v)) qlinks.

(** Lines 289-293 and 296-300: the references of [row] for [dsTypes] go
    into the buckets [q] of one quantum key.  [q] and each bucket are
    shared with the enclosing dict, so an update is stored back under the
    key it was fetched from. *)
Definition addDataRefs (row : Row) (dsTypes : list DatasetType) (q : QuantumIO)
    : res QuantumIO :=
  foldM (λ q dsType,
           let '(dataRefs, q) := dict.setdefault q dsType dict.empty in
           dataRef ← getitem (row_datasetRefs row) dsType;
           let dataRefs := dict.setitem dataRefs (_dataRefKey dataRef) dataRef in
           Ok (dict.setitem q dsType dataRefs))
        q dsTypes.

(** Lines 281-300: the body of [for row in unitVerse]. *)
Definition addRow (taskDss : _TaskDatasetTypes) (qlinks : list string)
    (acc : TaskQuanta * TaskQuanta) (row : Row) : res (TaskQuanta * TaskQuanta) :=
  let '(taskQuantaInputs, taskQuantaOutputs) := acc in
  qkey ← quantumKey qlinks row;
  let '(qinputs, taskQuantaInputs) :=
    dict.setdefault taskQuantaInputs qkey dict.empty in
  qinputs ← addDataRefs row (inputs taskDss) qinputs;
  let taskQuantaInputs := dict.setitem taskQuantaInputs qkey qinputs in
  let '(qoutputs, taskQuantaOutputs) :=
    dict.setdefault taskQuantaOutputs qkey dict.empty in
  qoutputs ← addDataRefs row (outputs taskDss) qoutputs;
  let taskQuantaOutputs := dict.setitem taskQuantaOutputs qkey qoutputs in
  Ok (taskQuantaInputs, taskQuantaOutputs).

Definition groupRows (taskDss : _TaskDatasetTypes) (qlinks : list string)
    (unitVerse : list Row) : res (TaskQuanta * TaskQuanta) :=
  foldM (addRow taskDss qlinks) (dict.empty, dict.empty) unitVerse.

(** [list(chain.from_iterable(dataRefs.values() for dataRefs in q.values()))] *)
Definition chainValues (q : QuantumIO) : list DatasetRef :=
  concat (dict.values <$> dict.values q).

Definition exists_ (ref : DatasetRef) : bool := bool_decide (id ref ≠ None).

(** Lines 304-329: the body of [for qkey in taskQuantaInputs]; [None] is
    the [continue] that leaves [quanta] as it is. *)
Definition makeQuantum (self : GraphBuilder) (taskDss : _TaskDatasetTypes)
    (taskQuantaInputs taskQuantaOutputs : TaskQuanta) (qkey : QKey)
    : res (option butler.Quantum) :=
  let quantum := butler.new in
  qoutputs ← dict_getitem taskQuantaOutputs qkey;
  let outputs := chainValues qoutputs in
  if skipExisting self && forallb exists_ outputs then Ok None
  else if existsb exists_ outputs
  then Raise (OutputExistsError (taskName (taskDef taskDss)) outputs)
  else
    let quantum := foldl butler.addOutput quantum outputs in
    qinputs ← dict_getitem taskQuantaInputs qkey;
    let quantum :=
      foldl (λ quantum dataRefs,
               foldl butler.addPredictedInput quantum (dict.values dataRefs))
            quantum (dict.values qinputs) in
    Ok (Some quantum).

Definition addQuantum (self : GraphBuilder) (taskDss : _TaskDatasetTypes)
    (taskQuantaInputs taskQuantaOutputs : TaskQuanta)
    (quanta : list butler.Quantum) (qkey : QKey) : res (list butler.Quantum) :=
  quantum ← makeQuantum self taskDss taskQuantaInputs taskQuantaOutputs qkey;
  Ok (match quantum with
      | None => quanta
      | Some quantum => quanta ++ [quantum]
      end).

(** Lines 303-329: [quanta = []; for qkey in taskQuantaInputs: ...] *)
Definition makeQuanta (self : GraphBuilder) (taskDss : _TaskDatasetTypes)
    (taskQuantaInputs taskQuantaOutputs : TaskQuanta) (qkeys : list QKey)
    : res (list butler.Quantum) :=
  foldM (addQuantum self taskDss taskQuantaInputs taskQuantaOutputs) [] qkeys.

(** Lines 270-331: the body of [for taskDss in taskDatasets]. *)
Definition makeNodes (self : GraphBuilder) (unitVerse : list Row)
    (taskDss : _TaskDatasetTypes) : res QuantumGraphNodes :=
  qlinks ← quantumLinks self taskDss;
  '(taskQuantaInputs, taskQuantaOutputs) ← groupRows taskDss qlinks unitVerse;
  quanta ← makeQuanta self taskDss taskQuantaInputs taskQuantaOutputs
                      (dict.keys taskQuantaInputs);
  Ok (mkQuantumGraphNodes (taskDef taskDss) quanta).

(** Lines 269-333: the grouping of the stored rows by task quantum units. *)
Definition _makeGraph_unitVerse (self : GraphBuilder)
    (taskDatasets : list _TaskDatasetTypes) (unitVerse : list Row)
    : res QuantumGraph :=
  foldM (λ qgraph taskDss,
           nodes ← makeNodes self unitVerse taskDss;
           Ok (qgraph ++ [nodes]))
        [] taskDatasets.

Section parser.
(** The expression parser [expr_parser.parserYacc] of this package:
    [ParserYacc().parse(text)] returns a tree, or [None], or raises
    [ParserYaccError]; [str(tree)] is the text given to the registry. *)
Context {Node : Type}.
Variable parse : string → result string (option Node).
Variable str : Node → string.

Definition _parseUserQuery (userQuery : string) : res (option Node) :=
  match parse userQuery with
  | Ok tree => Ok tree
  | Raise exc => Raise (UserExpressionError userQuery exc)
  end.

Definition _makeGraph (self : GraphBuilder)
    (taskDatasets : list _TaskDatasetTypes)
    (inputs outputs : gset DatasetType) (originInfo : OriginInfo)
    (userQuery : option string) : res QuantumGraph :=
  parsedQuery ← _parseUserQuery (default "" userQuery);
  let expr := str <$> parsedQuery in
  rows ← selectDataUnits (registry self) originInfo expr inputs outputs;
  (* store result locally for multi-pass algorithm below *)
  let unitVerse := foldl (λ unitVerse row, unitVerse ++ [row]) [] rows in
  _makeGraph_unitVerse self taskDatasets unitVerse.
End parser.

(** *** [GraphBuilder.makeGraph] *)

(** What the orchestration can raise: the exceptions of the builder and
    its collaborators, and the [AttributeError] of a method looked up on
    [None]. *)
Inductive PyException :=
  | BuilderException (e : Exception)
  | AttributeError (attribute : string).

Definition lift {A} (m : res A) : result PyException A :=
  match m with
  | Ok a => Ok a
  | Raise e => Raise (BuilderException e)
  end.

(** [list(d.values()) if d else []], for the dict or [None] that a task
    class returns. *)
Definition valuesIfAny (d : option (dict.t string DatasetType))
    : list DatasetType :=
  match d with
  | Some ((_ :: _) as d) => dict.values d
  | _ => []
  end.

(** Line 180: [[self._loadTaskClass(taskDef) for taskDef in pipeline]]; a
    pipeline is a sequence of references to task definitions. *)
Definition loadTaskClasses (self : GraphBuilder) (h : heap.t)
    (pipeline : list heap.loc) : res (list heap.loc * heap.t) :=
  foldM (λ '(taskList, h) taskDef,
           '(taskDef, h) ← _loadTaskClass self h taskDef;
           Ok (taskList ++ [taskDef], h))
        ([], h) pipeline.

Section makeGraph.
(** The parser, and the class methods [getInputDatasetTypes(config)] and
    [getOutputDatasetTypes(config)] of the loaded task classes, which
    return a dict of dataset types or nothing, or raise. *)
Context {Node : Type}.
Variable parse : string → result string (option Node).
Variable str : Node → string.
Variable getInputDatasetTypes :
  TaskClass → Config → res (option (dict.t string DatasetType)).
Variable getOutputDatasetTypes :
  TaskClass → Config → res (option (dict.t string DatasetType)).

(** Lines 185-192: the body of [for taskDef in taskList].  The tuple holds
    the task definition as it is when the graph is built. *)
Definition collectDatasetTypes (h : heap.t) (taskDef : heap.loc)
    : result PyException _TaskDatasetTypes :=
  let taskDef := heap.deref h taskDef in
  match taskClass taskDef with
  | None => Raise (AttributeError "getInputDatasetTypes")
  | Some taskClass =>
      taskInputs ← lift (getInputDatasetTypes taskClass (config taskDef));
      let taskInputs := valuesIfAny taskInputs in
      taskOutputs ← lift (getOutputDatasetTypes taskClass (config taskDef));
      let taskOutputs := valuesIfAny taskOutputs in
      Ok (mkTaskDatasetTypes taskDef taskInputs taskOutputs)
  end.

(** [makeGraph] returns the graph; the heap is returned with it to tell
    what became of the objects of the caller. *)
Definition makeGraph (self : GraphBuilder) (h : heap.t)
    (pipeline : list heap.loc) (originInfo : OriginInfo)
    (userQuery : option string) : result PyException (QuantumGraph * heap.t) :=
  (* make sure all task classes are loaded *)
  '(taskList, h) ← lift (loadTaskClasses self h pipeline);
  (* collect inputs/outputs from each task *)
  taskDatasets ←
    foldM (λ taskDatasets taskDef,
             taskDss ← collectDatasetTypes h taskDef;
             Ok (taskDatasets ++ [taskDss]))
          [] taskList;
  (* build initial dataset graph *)
  '(inputs, outputs) ← lift (_makeFullIODatasetTypes taskDatasets);
  (* make a graph *)
  qgraph ← lift (_makeGraph parse str self taskDatasets inputs outputs
                            originInfo userQuery);
  Ok (qgraph, h).
End makeGraph.

(** ** quantum.py *)

Module quantum.
Section quantum.
(** [DatasetClass], [Dataset] and the task-private extras are opaque to
    the class; dataset classes are dict keys. *)
Context {DatasetClass Dataset Extras : Type} `{EqDecision DatasetClass}.

Record Quantum := mkQuantum {
  inputs : dict.t DatasetClass (list Dataset);
  outputs : dict.t DatasetClass (list Dataset);
  extras : option Extras;
  director : option DatasetClass;
}.

Inductive ValueError := Director_not_in_inputs_or_outputs (director : DatasetClass).

(** [k in d] *)
Definition contains {V} (d : dict.t DatasetClass V) (k : DatasetClass) : bool :=
  bool_decide (is_Some (dict.get d k)).

(** [bool(director)] for a director that is an object: Python asks the
    object itself (its [__bool__] or [__len__]), so the truth value of a
    dataset class is a parameter of the model. *)
Variable truth : DatasetClass → bool.

(** The truth value of the argument [director]: [None] is false. *)
Definition truthy (director : option DatasetClass) : bool :=
  match director with
  | Some d => truth d
  | None => false
  end.

(** [Quantum.__init__].  The test at line 66 is
    [director and director not in inputs and director not in outputs]:
    the two lookups are made only for a director whose truth value is
    true, and such a director is not [None]. *)
Definition __init__ (inputs outputs : dict.t DatasetClass (list Dataset))
    (extras : option Extras) (director : option DatasetClass)
    : result ValueError Quantum :=
  let self := mkQuantum inputs outputs extras director in
  (* check consistency *)
  match director with
  | Some d =>
      if truthy director && negb (contains inputs d) && negb (contains outputs d)
      then Raise (Director_not_in_inputs_or_outputs d)
      else Ok self
  | None => Ok self
  end.
End quantum.
Arguments Quantum : clear implicits.
Arguments ValueError : clear implicits.

(** [bool(s)] of a Python string: every string but the empty one is
    true. *)
Definition str_truth (s : string) : bool := bool_decide (s ≠ "").
End quantum.

(** ** Vocabulary of the properties *)

(** The names of a list of dataset types, and the names that the tasks of a
    pipeline read and write. *)
Definition namesOf (dsTypes : list DatasetType) : gset string :=
  list_to_set (name <$> dsTypes).

(** Every entry of [allDatasetTypes] is stored under its own name. *)
Definition keyedByName (allDatasetTypes : gmap string DatasetType) : Prop :=
  ∀ n d, allDatasetTypes !! n = Some d → name d = n.

Definition allInputNames (taskDatasets : list _TaskDatasetTypes) : gset string :=
  ⋃ (namesOf ∘ inputs <$> taskDatasets).
Definition allOutputNames (taskDatasets : list _TaskDatasetTypes) : gset string :=
  ⋃ (namesOf ∘ outputs <$> taskDatasets).

(** [td] is what [_loadTaskClass] makes of the definition [original]: the
    definition itself when its class is there, otherwise a definition with
    the class and the name that the factory gives for its name, and with
    its configuration and label. *)
Definition resolved (self : GraphBuilder) (original td : TaskDef) : Prop :=
  match taskClass original with
  | Some _ => td = original
  | None =>
      ∃ tClass tName,
        loadTaskClass (taskFactory self) (taskName original) = Ok (tClass, tName) ∧
        td = mkTaskDef tName (config original) (Some tClass) (label original)
  end.

(** The definitions of a pipeline that have no class yet. *)
Definition unresolved (h : heap.t) (pipeline : list heap.loc) : list heap.loc :=
  filter (λ l, taskClass (heap.deref h l) = None) pipeline.

(** Pipelines in which a name stands for one dataset type. *)
Definition namesIdentify (taskDatasets : list _TaskDatasetTypes) : Prop :=
  ∀ t1 t2 d1 d2,
    t1 ∈ taskDatasets → t2 ∈ taskDatasets →
    d1 ∈ inputs t1 ++ outputs t1 → d2 ∈ inputs t2 ++ outputs t2 →
    name d1 = name d2 → d1 = d2.

(** One pass of the inner loops at lines 289-293 and 296-300: the
    reference [dataRef] of the row goes into the bucket of [dsType]. *)
Definition putRef (q : QuantumIO) (dsType : DatasetType) (dataRef : DatasetRef)
    : QuantumIO :=
  dict.setitem q dsType
    (dict.setitem (default dict.empty (dict.get q dsType))
                  (_dataRefKey dataRef) dataRef).

(** The distinct elements of a list in the order of their first
    occurrence: the order in which a dict receives its keys. *)
Definition firstOccurrences {A} `{EqDecision A} (l : list A) : list A :=
  foldl (λ acc x, if decide (x ∈ acc) then acc else acc ++ [x]) [] l.

(** A row that the loops of a task read without a [KeyError]. *)
Definition rowReadable (taskDss : _TaskDatasetTypes) (qlinks : list string)
    (row : Row) : Prop :=
  succeeds (quantumKey qlinks row) ∧
  ∀ c, c ∈ inputs taskDss ++ outputs taskDss → is_Some (row_datasetRefs row !! c).

(** What the bucket [b] of the dataset type [c] under the quantum key [k]
    holds after the rows [rows]: one entry per key, each stored under the
    key of its reference and read from a row of that quantum, and an entry
    for every reference of those rows. *)
Definition bucketOf (qlinks : list string) (rows : list Row) (k : QKey)
    (c : DatasetType) (b : DataRefs) : Prop :=
  NoDup (dict.keys b) ∧
  (∀ rk r, (rk, r) ∈ b →
     rk = _dataRefKey r ∧
     ∃ row, row ∈ rows ∧ quantumKey qlinks row = Ok k ∧
            row_datasetRefs row !! c = Some r) ∧
  (∀ row r, row ∈ rows → quantumKey qlinks row = Ok k →
     row_datasetRefs row !! c = Some r → is_Some (dict.get b (_dataRefKey r))).

(** The invariant of [taskQuantaInputs] (with the inputs of the task for
    [cs]) and of [taskQuantaOutputs] (with its outputs). *)
Definition grouped (qlinks : list string) (cs : list DatasetType)
    (rows : list Row) (tq : TaskQuanta) : Prop :=
  NoDup (dict.keys tq) ∧
  (∀ k, k ∈ dict.keys tq ↔ ∃ row, row ∈ rows ∧ quantumKey qlinks row = Ok k) ∧
  (∀ k q, dict.get tq k = Some q →
     NoDup (dict.keys q) ∧
     (∀ c, c ∈ dict.keys q ↔ c ∈ cs) ∧
     ∀ c b, dict.get q c = Some b → bucketOf qlinks rows k c b).

(** Rows in which the reference stored for a dataset type is a reference of
    that dataset type. *)
Definition rowsTyped (rows : list Row) : Prop :=
  ∀ row c ref, row ∈ rows → row_datasetRefs row !! c = Some ref →
               datasetType ref = c.

(** Rows that agree on the reference of a dataset type at a data id. *)
Definition rowsConsistent (rows : list Row) : Prop :=
  ∀ row1 row2 c ref1 ref2,
    row1 ∈ rows → row2 ∈ rows →
    row_datasetRefs row1 !! c = Some ref1 →
    row_datasetRefs row2 !! c = Some ref2 →
    dataId ref1 = dataId ref2 → ref1 = ref2.

(** Two quanta with the same input references and the same output
    references, as sets. *)
Definition sameRefs (q q' : butler.Quantum) : Prop :=
  (∀ ref, ref ∈ butler.predictedInputs q ↔ ref ∈ butler.predictedInputs q') ∧
  (∀ ref, ref ∈ butler.outputs q ↔ ref ∈ butler.outputs q').

(** The quantum that the loop body makes for a key, if it makes one. *)
Definition quantumOf (self : GraphBuilder) (taskDss : _TaskDatasetTypes)
    (tqi tqo : TaskQuanta) (qkey : QKey) : option butler.Quantum :=
  match makeQuantum self taskDss tqi tqo qkey with
  | Ok quantum => quantum
  | Raise _ => None
  end.

(** The decision of lines 310-329 as a function of the flattened
    references of one quantum key. *)
Definition decideQuantum (skipExisting : bool) (taskName : string)
    (ins outs : list DatasetRef) : res (option butler.Quantum) :=
  if skipExisting && forallb exists_ outs then Ok None
  else if existsb exists_ outs then Raise (OutputExistsError taskName outs)
  else Ok (Some (butler.mkQuantum ins outs)).

(** ** A pipeline to run the builder on

    The scenario of the specification: [TaskA] turns [raw] into
    [calibrated] per detector, [TaskB] turns [calibrated] into [coadd] per
    tract.  [TaskC] writes [calibrated] per tract, so that one of its
    quanta has several outputs, and [TaskD] declares no output. *)
Module example.
Definition raw := mkDatasetType "raw" "Exposure".
Definition calibrated := mkDatasetType "calibrated" "Exposure".
Definition coadd := mkDatasetType "coadd" "Exposure".

Definition at_ (detector tract : Z) : gmap string Value :=
  {[ "detector" := VInt detector; "tract" := VInt tract ]}.

(** The row of a detector and a tract; [calibratedId] is the identity of
    the [calibrated] dataset when it exists. *)
Definition row (detector tract : Z) (calibratedId : option Z) : Row :=
  mkRow (at_ detector tract)
        {[ raw := mkDatasetRef raw (at_ detector tract) (Some (100 + detector)%Z);
           calibrated := mkDatasetRef calibrated (at_ detector tract) calibratedId;
           coadd := mkDatasetRef coadd {[ "tract" := VInt tract ]} None ]}.

Definition perDetector := mkConfig (mkQuantumConfig ["Detector"]).
Definition perTract := mkConfig (mkQuantumConfig ["Tract"]).

Definition taskA :=
  mkTaskDatasetTypes (mkTaskDef "TaskA" perDetector (Some "TaskA") "a")
                     [raw] [calibrated].
Definition taskB :=
  mkTaskDatasetTypes (mkTaskDef "TaskB" perTract (Some "TaskB") "b")
                     [calibrated] [coadd].
Definition taskC :=
  mkTaskDatasetTypes (mkTaskDef "TaskC" perTract (Some "TaskC") "c")
                     [raw] [calibrated].
Definition taskD :=
  mkTaskDatasetTypes (mkTaskDef "TaskD" perDetector (Some "TaskD") "d")
                     [raw] [].

Definition factory := mkTaskFactory (λ taskName, Ok (taskName, "lsst." +:+ taskName)).

(** A registry that answers every query with [rows]. *)
Definition registryOf (rows : list Row) : Registry :=
  mkRegistry (λ _ _ _ _, Ok rows)
             {[ "Detector" := mkDataUnit ["detector"];
                "Tract" := mkDataUnit ["tract"] ]}.

Definition builder (rows : list Row) (skipExisting : bool) : GraphBuilder :=
  GraphBuilder__init__ factory (registryOf rows) skipExisting.

(** A parser that accepts every text. *)
Definition parse (text : string) : result string (option string) :=
  if decide (text = "") then Ok None else Ok (Some text).

(** The sizes of a graph: per node, the task name and per quantum the
    identities of its inputs and of its outputs. *)
Definition summary (qgraph : QuantumGraph)
    : list (string * list (list (option Z) * list (option Z))) :=
  (λ nodes, (taskName (node_taskDef nodes),
             (λ q, (id <$> butler.predictedInputs q, id <$> butler.outputs q))
               <$> quanta nodes)) <$> qgraph.
End example.

(** A pipeline as a caller holds it: [TaskA] by name only, [TaskB] with
    its class, and the dataset types that the two classes declare. *)
Module pipeline_example.
Definition objects : heap.t :=
  {[ 1%positive := mkTaskDef "TaskA" example.perDetector None "a";
     2%positive := mkTaskDef "lsst.TaskB" example.perTract (Some "TaskB") "b" ]}.

Definition pipeline : list heap.loc := [1%positive; 2%positive].

Definition getInputDatasetTypes (taskClass : TaskClass) (_ : Config)
    : res (option (dict.t string DatasetType)) :=
  if decide (taskClass = "TaskA") then Ok (Some [("input", example.raw)])
  else if decide (taskClass = "TaskB") then Ok (Some [("input", example.calibrated)])
  else Ok None.

Definition getOutputDatasetTypes (taskClass : TaskClass) (_ : Config)
    : res (option (dict.t string DatasetType)) :=
  if decide (taskClass = "TaskA") then Ok (Some [("output", example.calibrated)])
  else if decide (taskClass = "TaskB") then Ok (Some [("output", example.coadd)])
  else Ok None.

Definition run (rows : list Row) : result PyException (QuantumGraph * heap.t) :=
  makeGraph example.parse (λ tree, tree) getInputDatasetTypes getOutputDatasetTypes
            (example.builder rows true) objects pipeline "origin" None.
End pipeline_example.

(** * Properties *)

(** ** Loops in the [result] monad *)

Lemma bind_Ok {E A B} (m : result E A) (k : A → result E B) (b : B) :
  m ≫= k = Ok b ↔ ∃ a, m = Ok a ∧ k a = Ok b.
Proof. destruct m; simpl; naive_solver. Qed.

Lemma bind_Raise {E A B} (m : result E A) (k : A → result E B) (e : E) :
  m ≫= k = Raise e ↔ m = Raise e ∨ ∃ a, m = Ok a ∧ k a = Raise e.
Proof. destruct m; simpl; naive_solver. Qed.

Lemma foldM_app {E A B} (body : B → A → result E B) acc xs ys :
  foldM body acc (xs ++ ys) = foldM body acc xs ≫= λ acc', foldM body acc' ys.
Proof.
  revert acc. induction xs as [|x xs IH]; intros acc; simpl; [done|].
  destruct (body acc x); simpl; auto.
Qed.

Lemma foldM_snoc {E A B} (body : B → A → result E B) acc xs x :
  foldM body acc (xs ++ [x]) = foldM body acc xs ≫= λ acc', body acc' x.
Proof.
  rewrite foldM_app. destruct (foldM body acc xs); simpl; [|done].
  by destruct (body _ x).
Qed.

Lemma forM_Ok {E A B} (f : A → result E B) xs ys :
  forM f xs = Ok ys ↔ Forall2 (λ x y, f x = Ok y) xs ys.
Proof.
  revert ys. induction xs as [|x xs IH]; intros ys; simpl.
  - split; [intros [= <-]; constructor|by inversion 1].
  - split.
    + intros (y & Hy & (ys' & Hys & [= <-])%bind_Ok)%bind_Ok.
      constructor; [done|by apply IH].
    + inversion 1 as [|? y ? ys' Hy Hys]; subst. rewrite Hy; simpl.
      apply IH in Hys. by rewrite Hys.
Qed.

Lemma forM_elem_of {E A B} (f : A → result E B) xs ys y :
  forM f xs = Ok ys → y ∈ ys ↔ ∃ x, x ∈ xs ∧ f x = Ok y.
Proof.
  intros H%forM_Ok. induction H as [|x y' xs ys Hx _ IH].
  - split; [by intros ?%elem_of_nil|by intros (? & ?%elem_of_nil & _)].
  - rewrite elem_of_cons, IH. split.
    + intros [->|(x' & ? & ?)]; [exists x|exists x']; split; try done;
        [left|by right].
    + intros (x' & [->|?]%elem_of_cons & Hy); [left; congruence|right; eauto].
Qed.

Lemma forM_total {E A B} (f : A → result E B) xs :
  (∀ x, x ∈ xs → succeeds (f x)) → succeeds (forM f xs).
Proof.
  induction xs as [|x xs IH]; intros Hf; simpl; [by eexists|].
  destruct (Hf x) as [y Hy]; [left|]. rewrite Hy; simpl.
  destruct IH as [ys Hys]; [intros; apply Hf; by right|].
  rewrite Hys. by eexists.
Qed.

(** ** [GraphBuilder._makeFullIODatasetTypes] *)

Lemma collectNames_spec allDatasetTypes names dsTypes :
  ∃ allDatasetTypes',
    collectNames (allDatasetTypes, names) dsTypes
      = (allDatasetTypes', names ∪ namesOf dsTypes) ∧
    dom allDatasetTypes' = dom allDatasetTypes ∪ namesOf dsTypes ∧
    (keyedByName allDatasetTypes → keyedByName allDatasetTypes').
Proof.
  unfold collectNames, namesOf.
  revert allDatasetTypes names.
  induction dsTypes as [|d l IH]; intros a ns; simpl.
  - exists a. split_and!; [f_equal|..]; [set_solver..|done].
  - destruct (IH (<[name d := d]> a) (ns ∪ {[name d]})) as (a' & -> & Hdom & Hk).
    exists a'. split_and!.
    + f_equal. set_solver.
    + rewrite Hdom, dom_insert_L. set_solver.
    + intros Ha. apply Hk. intros n d'.
      rewrite lookup_insert. case_decide; naive_solver.
Qed.

Lemma collectAll_spec taskDatasets :
  ∃ allDatasetTypes,
    collectAll taskDatasets
      = (allDatasetTypes, allInputNames taskDatasets, allOutputNames taskDatasets) ∧
    dom allDatasetTypes = allInputNames taskDatasets ∪ allOutputNames taskDatasets ∧
    keyedByName allDatasetTypes.
Proof.
  unfold collectAll, allInputNames, allOutputNames.
  induction taskDatasets as [|t l IH] using rev_ind.
  - exists ∅. split_and!; [done|set_solver|]. intros n d. by rewrite lookup_empty.
  - destruct IH as (a & Heq & Hdom & Hk).
    rewrite foldl_app, Heq; simpl.
    destruct (collectNames_spec a (⋃ (namesOf ∘ inputs <$> l)) (inputs t))
      as (a1 & -> & Hdom1 & Hk1).
    destruct (collectNames_spec a1 (⋃ (namesOf ∘ outputs <$> l)) (outputs t))
      as (a2 & -> & Hdom2 & Hk2).
    exists a2. rewrite !fmap_app, !union_list_app_L; simpl.
    split_and!; [repeat f_equal; set_solver| |by auto].
    rewrite Hdom2, Hdom1, Hdom. set_solver.
Qed.

Lemma elem_of_allOutputNames taskDatasets n :
  n ∈ allOutputNames taskDatasets ↔
  ∃ t o, t ∈ taskDatasets ∧ o ∈ outputs t ∧ name o = n.
Proof.
  unfold allOutputNames, namesOf. rewrite elem_of_union_list. split.
  - intros (X & (t & -> & Ht)%list_elem_of_fmap & Hn); simpl in Hn.
    apply elem_of_list_to_set, list_elem_of_fmap in Hn as (o & -> & Ho).
    by exists t, o.
  - intros (t & o & Ht & Ho & <-). exists (namesOf (outputs t)). split.
    + apply list_elem_of_fmap. by exists t.
    + apply elem_of_list_to_set, list_elem_of_fmap. by exists o.
Qed.

Lemma elem_of_allInputNames taskDatasets n :
  n ∈ allInputNames taskDatasets ↔
  ∃ t i, t ∈ taskDatasets ∧ i ∈ inputs t ∧ name i = n.
Proof.
  unfold allInputNames, namesOf. rewrite elem_of_union_list. split.
  - intros (X & (t & -> & Ht)%list_elem_of_fmap & Hn); simpl in Hn.
    apply elem_of_list_to_set, list_elem_of_fmap in Hn as (o & -> & Ho).
    by exists t, o.
  - intros (t & o & Ht & Ho & <-). exists (namesOf (inputs t)). split.
    + apply list_elem_of_fmap. by exists t.
    + apply elem_of_list_to_set, list_elem_of_fmap. by exists o.
Qed.

Lemma typesOfNames_spec allDatasetTypes names :
  names ⊆ dom allDatasetTypes →
  ∃ dsTypes,
    typesOfNames allDatasetTypes names = Ok dsTypes ∧
    ∀ d, d ∈ dsTypes ↔ ∃ n, n ∈ names ∧ allDatasetTypes !! n = Some d.
Proof.
  intros Hsub. unfold typesOfNames.
  destruct (forM_total (E:=Exception) (getitem allDatasetTypes) (elements names))
    as [ds Hds].
  { intros n Hn%elem_of_elements. apply Hsub, elem_of_dom in Hn as [d Hd].
    exists d. unfold getitem. by rewrite Hd. }
  rewrite Hds; simpl. eexists; split; [done|].
  intros d. rewrite elem_of_list_to_set, (forM_elem_of _ _ _ _ Hds).
  unfold getitem. split.
  - intros (n & Hn%elem_of_elements & Hd). exists n.
    destruct (allDatasetTypes !! n); naive_solver.
  - intros (n & Hn & Hd). exists n. rewrite elem_of_elements, Hd. done.
Qed.

(** C3. The IO aggregation always returns, and no dataset type of the
    returned external inputs carries the name of an output of some task:
    the returned inputs and outputs are disjoint by name.  The returned
    inputs are not emptied for that: every input name that no task
    produces is the name of a returned input, and every returned output
    carries the name of an output of some task. *)
Theorem C3_externalInputs_disjoint_from_outputs taskDatasets :
  ∃ ins outs,
    _makeFullIODatasetTypes taskDatasets = Ok (ins, outs) ∧
    (∀ d t o, d ∈ ins → t ∈ taskDatasets → o ∈ outputs t → name d ≠ name o) ∧
    (∀ d o, d ∈ ins → o ∈ outs → name d ≠ name o) ∧
    (∀ t i, t ∈ taskDatasets → i ∈ inputs t →
       (∀ t' o, t' ∈ taskDatasets → o ∈ outputs t' → name o ≠ name i) →
       ∃ d, d ∈ ins ∧ name d = name i) ∧
    (∀ o, o ∈ outs → ∃ t o', t ∈ taskDatasets ∧ o' ∈ outputs t ∧ name o' = name o).
Proof.
  unfold _makeFullIODatasetTypes.
  destruct (collectAll_spec taskDatasets) as (a & -> & Hdom & Hk).
  destruct (typesOfNames_spec a
              (allInputNames taskDatasets ∖ allOutputNames taskDatasets))
    as (ins & -> & Hins); [set_solver|].
  destruct (typesOfNames_spec a (allOutputNames taskDatasets))
    as (outs & -> & Houts); [set_solver|].
  exists ins, outs; simpl. split; [done|].
  assert (Hno : ∀ d, d ∈ ins → name d ∉ allOutputNames taskDatasets).
  { intros d (n & Hn & Hd)%Hins. apply Hk in Hd as ->. set_solver. }
  assert (Hout : ∀ o, o ∈ outs → name o ∈ allOutputNames taskDatasets).
  { intros o (n & Hn & Hd)%Houts. by apply Hk in Hd as ->. }
  split_and!.
  - intros d t o Hd Ht Ho Heq. apply (Hno d Hd).
    apply elem_of_allOutputNames. by exists t, o.
  - intros d o Hd Ho Heq. apply (Hno d Hd). rewrite Heq. by apply Hout.
  - intros t i Ht Hi Hnot.
    assert (Hn : name i ∈ allInputNames taskDatasets ∖ allOutputNames taskDatasets).
    { apply elem_of_difference. split.
      - apply elem_of_allInputNames. by exists t, i.
      - intros (t' & o & ? & ? & ?)%elem_of_allOutputNames. by eapply Hnot. }
    assert (is_Some (a !! name i)) as [d Hd].
    { apply elem_of_dom. rewrite Hdom. set_solver. }
    exists d. split; [apply Hins; eauto|by apply Hk in Hd].
  - intros o Ho%Hout. by apply elem_of_allOutputNames.
Qed.

(** ** Insertion-ordered dictionaries *)

Section dict_lemmas.
Context {K V : Type} `{EqDecision K}.
Implicit Types (d : dict.t K V) (k : K) (v : V).

Lemma get_Some_elem_of d k v : dict.get d k = Some v → (k, v) ∈ d.
Proof.
  induction d as [|[k' v'] d IH]; simpl; [done|].
  case_decide; [intros [= <-]; subst; left|right; auto].
Qed.

Lemma get_None d k : dict.get d k = None ↔ k ∉ dict.keys d.
Proof.
  unfold dict.keys. induction d as [|[k' v'] d IH]; simpl.
  - split; [intros _ ?%elem_of_nil|]; done.
  - rewrite not_elem_of_cons. case_decide; naive_solver.
Qed.

Lemma get_is_Some d k : is_Some (dict.get d k) ↔ k ∈ dict.keys d.
Proof.
  rewrite <-not_eq_None_Some, get_None.
  destruct (decide (k ∈ dict.keys d)); naive_solver.
Qed.

Lemma elem_of_get d k v : NoDup (dict.keys d) → (k, v) ∈ d → dict.get d k = Some v.
Proof.
  unfold dict.keys. induction d as [|[k' v'] d IH]; simpl.
  - by intros _ ?%elem_of_nil.
  - intros [Hk' Hd]%NoDup_cons [[= -> ->]|Hin]%elem_of_cons.
    + by rewrite decide_True.
    + rewrite decide_False; [auto|]. intros ->. apply Hk'.
      apply list_elem_of_fmap. by exists (k, v).
Qed.

Lemma setitem_absent d k v : k ∉ dict.keys d → dict.setitem d k v = d ++ [(k, v)].
Proof.
  unfold dict.keys. induction d as [|[k' v'] d IH]; simpl; [done|].
  intros [? ?]%not_elem_of_cons. rewrite decide_False by done. by rewrite IH.
Qed.

Lemma keys_setitem_present d k v :
  k ∈ dict.keys d → dict.keys (dict.setitem d k v) = dict.keys d.
Proof.
  unfold dict.keys. induction d as [|[k' v'] d IH]; simpl.
  - by intros ?%elem_of_nil.
  - intros Hk. case_decide; simpl; [done|]. f_equal. apply IH.
    apply elem_of_cons in Hk as [->|]; done.
Qed.

(** The keys of a dict after [d[k] = v]: insertion order. *)
Lemma keys_setitem d k v :
  dict.keys (dict.setitem d k v) =
  if decide (k ∈ dict.keys d) then dict.keys d else dict.keys d ++ [k].
Proof.
  case_decide.
  - by apply keys_setitem_present.
  - rewrite setitem_absent by done. unfold dict.keys. by rewrite fmap_app.
Qed.

Lemma get_setitem d k v k' :
  dict.get (dict.setitem d k v) k' =
  if decide (k = k') then Some v else dict.get d k'.
Proof.
  induction d as [|[k0 v0] d IH]; simpl.
  - repeat case_decide; done.
  - repeat (case_decide; simpl; subst); try done.
Qed.

Lemma NoDup_keys_setitem d k v :
  NoDup (dict.keys d) → NoDup (dict.keys (dict.setitem d k v)).
Proof.
  intros Hd. rewrite keys_setitem. case_decide; [done|].
  apply NoDup_app. split_and!; [done| |apply NoDup_singleton].
  intros k' Hk' ->%list_elem_of_singleton. done.
Qed.

(** The value that [setdefault] returns is the one stored, or the default. *)
Lemma setdefault_fst d k v : (dict.setdefault d k v).1 = default v (dict.get d k).
Proof. unfold dict.setdefault. by destruct (dict.get d k). Qed.

(** [x = d.setdefault(k, v)] followed by the update of [x] to [x']:
    the dict is [d] with [x'] under [k]. *)
Lemma setitem_setdefault d k v x' :
  dict.setitem (dict.setdefault d k v).2 k x' = dict.setitem d k x'.
Proof.
  unfold dict.setdefault. destruct (dict.get d k) eqn:Hget; simpl; [done|].
  apply get_None in Hget. rewrite (setitem_absent d) by done.
  revert Hget. unfold dict.keys.
  induction d as [|[k0 v0] d IH]; simpl; intros Hk.
  - by rewrite decide_True.
  - apply not_elem_of_cons in Hk as [? ?].
    rewrite decide_False by done. by rewrite IH.
Qed.
End dict_lemmas.

(** ** [GraphBuilder._loadTaskClass] *)

Lemma deref_Some (h : heap.t) l td : h !! l = Some td → heap.deref h l = td.
Proof. intros Hl. unfold heap.deref. by apply lookup_total_correct. Qed.

(** C7. Task-class resolution leaves the caller's definition as it is.
    For a definition whose class is unresolved and a factory that loads
    it, the result is a new object that carries the loaded class and the
    fully-qualified name and the other attributes of the original, and
    every object that existed before, the original among them, has its
    attributes unchanged.  A resolved definition is returned as it is,
    with the heap untouched.  When the factory raises, so does the
    resolution. *)
Theorem C7_loadTaskClass_keeps_original self (h : heap.t) taskDef td :
  h !! taskDef = Some td →
  (is_Some (taskClass td) → _loadTaskClass self h taskDef = Ok (taskDef, h)) ∧
  (taskClass td = None →
     ∀ tClass tName,
       loadTaskClass (taskFactory self) (taskName td) = Ok (tClass, tName) →
       ∃ taskDef' h',
         _loadTaskClass self h taskDef = Ok (taskDef', h') ∧
         (taskDef' ∉ dom h) ∧
         (h' !! taskDef'
            = Some (mkTaskDef tName (config td) (Some tClass) (label td))) ∧
         (h' !! taskDef = Some td) ∧
         ∀ l, l ∈ dom h → h' !! l = h !! l) ∧
  (taskClass td = None →
     ∀ e, loadTaskClass (taskFactory self) (taskName td) = Raise e →
          _loadTaskClass self h taskDef = Raise e).
Proof.
  intros Hl. unfold _loadTaskClass. rewrite (deref_Some _ _ _ Hl).
  split_and!.
  - by intros [c ->].
  - intros -> tClass tName ->; simpl.
    unfold heap.set_taskName, heap.set_taskClass, heap.deref.
    set (l' := fresh (dom h)).
    assert (Hfresh : l' ∉ dom h) by apply is_fresh.
    assert (Hne : ∀ l, l ∈ dom h → l' ≠ l) by (intros l ? <-; done).
    do 2 eexists. split; [done|].
    rewrite !lookup_total_insert_eq; simpl.
    rewrite !insert_insert_eq, !lookup_insert_eq.
    rewrite (lookup_total_correct h _ _ Hl).
    split_and!; [done|done| |].
    + rewrite lookup_insert_ne; [done|]. apply Hne. by apply elem_of_dom.
    + intros l Hin. rewrite lookup_insert_ne; [done|]. by apply Hne.
  - by intros -> e ->.
Qed.

(** A pipeline of one unresolved definition, resolved by a factory that
    qualifies the name. *)
Lemma C7_loadTaskClass_keeps_original_witness :
  let td := mkTaskDef "TaskA" (mkConfig (mkQuantumConfig ["Detector"])) None "a" in
  let self := mkGraphBuilder (mkTaskFactory (λ n, Ok (n, "lsst." +:+ n)))
                             (mkRegistry (λ _ _ _ _, Ok []) ∅) ∅ true in
  ∃ taskDef' h',
    _loadTaskClass self {[ 1%positive := td ]} 1%positive = Ok (taskDef', h') ∧
    h' !! 1%positive = Some td ∧
    h' !! taskDef' =
      Some (mkTaskDef "lsst.TaskA" (config td) (Some "TaskA") (label td)).
Proof.
  intros td self.
  destruct (C7_loadTaskClass_keeps_original self {[ 1%positive := td ]}
              1%positive td) as (_ & Hnew & _).
  { apply lookup_singleton_eq. }
  destruct (Hnew eq_refl "TaskA" "lsst.TaskA" eq_refl)
    as (taskDef' & h' & Hrun & _ & Hcopy & Horig & _).
  exists taskDef', h'. split_and!; done.
Defined.

(** ** [Quantum.__init__] *)

Section quantum_lemmas.
Context {DatasetClass Dataset Extras : Type} `{EqDecision DatasetClass}.

Lemma contains_keys {V} (d : dict.t DatasetClass V) k :
  quantum.contains d k = true ↔ k ∈ dict.keys d.
Proof.
  unfold quantum.contains. rewrite bool_decide_eq_true. apply get_is_Some.
Qed.

End quantum_lemmas.



(** ** [GraphBuilder._makeGraph]: the loops over tasks *)

Lemma foldM_raises {E A B} (body : B → A → result E B) xs x :
  x ∈ xs → (∀ acc, raises (body acc x)) → ∀ acc, raises (foldM body acc xs).
Proof.
  intros Hx Hraise. induction xs as [|y xs IH]; intros acc; simpl.
  - by apply elem_of_nil in Hx.
  - destruct (body acc y) as [acc'|e] eqn:Hy; simpl; [|by exists e].
    apply elem_of_cons in Hx as [->|Hx]; [|by apply IH].
    destruct (Hraise acc) as [e He]. congruence.
Qed.

Lemma makeGraph_unitVerse_nodes self taskDatasets unitVerse qgraph :
  _makeGraph_unitVerse self taskDatasets unitVerse = Ok qgraph ↔
  Forall2 (λ taskDss nodes, makeNodes self unitVerse taskDss = Ok nodes)
          taskDatasets qgraph.
Proof.
  unfold _makeGraph_unitVerse.
  revert qgraph. induction taskDatasets as [|t l IH] using rev_ind; intros g.
  - simpl. split; [intros [= <-]; constructor|by inversion 1].
  - rewrite foldM_snoc. split.
    + intros (g0 & Hg0 & (n & Hn & [= <-])%bind_Ok)%bind_Ok.
      apply Forall2_app; [by apply IH|by repeat constructor].
    + intros (g0 & g1 & Hg0 & Hg1 & ->)%Forall2_app_inv_l.
      apply IH in Hg0 as ->; simpl.
      inversion Hg1 as [|? n ? ? Hn Hnil]; subst. inversion Hnil; subst.
      by rewrite Hn.
Qed.

Lemma makeNodes_taskDef self unitVerse taskDss nodes :
  makeNodes self unitVerse taskDss = Ok nodes → node_taskDef nodes = taskDef taskDss.
Proof.
  unfold makeNodes.
  intros (ql & _ & ([tqi tqo] & _ & (qs & _ & [= <-])%bind_Ok)%bind_Ok)%bind_Ok.
  done.
Qed.

Lemma makeGraph_unitVerse_raises self taskDatasets unitVerse taskDss :
  taskDss ∈ taskDatasets →
  raises (makeNodes self unitVerse taskDss) →
  raises (_makeGraph_unitVerse self taskDatasets unitVerse).
Proof.
  intros Hin [e He]. unfold _makeGraph_unitVerse.
  apply foldM_raises with taskDss; [done|].
  intros acc. rewrite He. by exists e.
Qed.

Lemma foldl_append {A} (acc xs : list A) :
  foldl (λ acc x, acc ++ [x]) acc xs = acc ++ xs.
Proof.
  revert acc. induction xs as [|x xs IH]; intros acc; simpl.
  - by rewrite app_nil_r.
  - by rewrite IH, <-app_assoc.
Qed.

Lemma foldl_append_all {A} (xs : list A) :
  foldl (λ acc x, acc ++ [x]) [] xs = xs.
Proof. apply foldl_append. Qed.

Section makeGraph_lemmas.
Context {Node : Type} (parse : string → result string (option Node)).
Context (str : Node → string).

Lemma makeGraph_Ok self taskDatasets ins outs originInfo userQuery qgraph :
  _makeGraph parse str self taskDatasets ins outs originInfo userQuery = Ok qgraph →
  ∃ parsedQuery rows,
    parse (default "" userQuery) = Ok parsedQuery ∧
    selectDataUnits (registry self) originInfo (str <$> parsedQuery) ins outs
      = Ok rows ∧
    _makeGraph_unitVerse self taskDatasets rows = Ok qgraph.
Proof.
  unfold _makeGraph, _parseUserQuery.
  intros (pq & Hpq & (rows & Hrows & Hg)%bind_Ok)%bind_Ok.
  destruct (parse _) as [tree|] eqn:Hparse; [|done].
  injection Hpq as ->. exists pq, rows. split_and!; [done..|].
  by rewrite foldl_append_all in Hg.
Qed.

(** C6. A build that completes returns one graph node per task of the
    pipeline, in pipeline order: the task definitions of the nodes are
    those of the input, position by position, whatever the number of
    quanta a node holds.  Each node is the one that the loop body builds
    for its task from the rows of the registry. *)
Theorem C6_one_node_per_task_in_order
    self taskDatasets ins outs originInfo userQuery qgraph :
  _makeGraph parse str self taskDatasets ins outs originInfo userQuery = Ok qgraph →
  length qgraph = length taskDatasets ∧
  node_taskDef <$> qgraph = taskDef <$> taskDatasets ∧
  ∃ rows, Forall2 (λ taskDss nodes, makeNodes self rows taskDss = Ok nodes)
                  taskDatasets qgraph.
Proof.
  intros (pq & rows & _ & _ & Hg%makeGraph_unitVerse_nodes)%makeGraph_Ok.
  split_and!; [by apply Forall2_length in Hg| |by exists rows].
  induction Hg as [|t n l g Hn _ IH]; simpl; [done|].
  f_equal; [|done]. by apply makeNodes_taskDef in Hn.
Qed.
End makeGraph_lemmas.

(** The pipeline of [TaskA] and [TaskB] on two detectors whose
    [calibrated] outputs exist: the node of [TaskA] has no quantum and is
    still the first of the two nodes. *)
Lemma C6_one_node_per_task_in_order_witness :
  let rows := [example.row 1 5 (Some 7%Z); example.row 2 5 (Some 8%Z)] in
  ∃ qgraph,
    _makeGraph example.parse (λ tree, tree) (example.builder rows true)
               [example.taskA; example.taskB]
               {[ example.raw ]} {[ example.calibrated; example.coadd ]}
               "origin" None = Ok qgraph ∧
    node_taskDef <$> qgraph = [taskDef example.taskA; taskDef example.taskB] ∧
    length ∘ quanta <$> qgraph = [0; 1].
Proof.
  intros rows.
  assert (Hrun : ∃ qgraph,
            _makeGraph example.parse (λ tree, tree) (example.builder rows true)
                       [example.taskA; example.taskB]
                       {[ example.raw ]} {[ example.calibrated; example.coadd ]}
                       "origin" None = Ok qgraph ∧
            length ∘ quanta <$> qgraph = [0; 1]).
  { eexists. split; [reflexivity|]. vm_compute. reflexivity. }
  destruct Hrun as (qgraph & Hrun & Hsizes).
  exists qgraph. split_and!; [done| |done].
  by destruct (C6_one_node_per_task_in_order _ _ _ _ _ _ _ _ _ Hrun)
    as (_ & -> & _).
Defined.

(** ** [GraphBuilder._makeGraph]: the accumulation of the rows *)

Section dict_more.
Context {K V : Type} `{EqDecision K}.
Implicit Types (d : dict.t K V) (k : K) (v : V).

Lemma setitem_setitem d k v v' :
  dict.setitem (dict.setitem d k v) k v' = dict.setitem d k v'.
Proof.
  induction d as [|[k0 v0] d IH]; simpl.
  - by rewrite decide_True.
  - case_decide; simpl; [by rewrite decide_True|].
    rewrite decide_False by done. by rewrite IH.
Qed.

Lemma setitem_same d k v : dict.get d k = Some v → dict.setitem d k v = d.
Proof.
  induction d as [|[k0 v0] d IH]; simpl; [done|].
  case_decide; [by intros [= ->]|]. intros ?. by rewrite IH.
Qed.

Lemma elem_of_setitem d k v k' v' :
  (k', v') ∈ dict.setitem d k v → (k', v') = (k, v) ∨ (k', v') ∈ d.
Proof.
  induction d as [|[k0 v0] d IH]; simpl.
  - intros ->%list_elem_of_singleton. by left.
  - case_decide; subst.
    + intros [->|?]%elem_of_cons; [by left|right; by right].
    + intros [->|[->|?]%IH]%elem_of_cons; [right; left|by left|right; by right].
Qed.

Lemma elem_of_keys d k : k ∈ dict.keys d ↔ ∃ v, (k, v) ∈ d.
Proof.
  unfold dict.keys. rewrite list_elem_of_fmap. split.
  - intros ([k' v] & -> & ?). by exists v.
  - intros (v & ?). by exists (k, v).
Qed.

Lemma elem_of_values d v : v ∈ dict.values d ↔ ∃ k, (k, v) ∈ d.
Proof.
  unfold dict.values. rewrite list_elem_of_fmap. split.
  - intros ([k v'] & -> & ?). by exists k.
  - intros (k & ?). by exists (k, v).
Qed.

Lemma elem_of_keys_setitem d k v k' :
  k' ∈ dict.keys (dict.setitem d k v) ↔ k' = k ∨ k' ∈ dict.keys d.
Proof.
  rewrite keys_setitem. case_decide; [|rewrite elem_of_app]; set_solver.
Qed.
End dict_more.

Lemma addDataRefs_cons row c cs (q : QuantumIO) :
  addDataRefs row (c :: cs) q =
  dataRef ← getitem (row_datasetRefs row) c; addDataRefs row cs (putRef q c dataRef).
Proof.
  unfold addDataRefs at 1; simpl.
  destruct (dict.setdefault q c dict.empty) as [dataRefs q1] eqn:Hsd.
  destruct (getitem (row_datasetRefs row) c) as [r|e]; simpl; [|done].
  unfold putRef.
  replace dataRefs with (dict.setdefault q c dict.empty).1 by (by rewrite Hsd).
  replace q1 with (dict.setdefault q c dict.empty).2 by (by rewrite Hsd).
  by rewrite setdefault_fst, setitem_setdefault.
Qed.

Lemma getitem_Ok `{Lookup K V M} (m : M) (k : K) v :
  getitem m k = Ok v ↔ m !! k = Some v.
Proof. unfold getitem. destruct (m !! k); naive_solver. Qed.

Lemma getitem_KeyError `{Lookup K V M} (m : M) (k : K) e :
  getitem m k = Raise e → e = KeyError.
Proof. unfold getitem. destruct (m !! k); naive_solver. Qed.

Lemma get_putRef (q : QuantumIO) c r c' :
  dict.get (putRef q c r) c' =
  if decide (c = c')
  then Some (dict.setitem (default dict.empty (dict.get q c)) (_dataRefKey r) r)
  else dict.get q c'.
Proof. unfold putRef. by rewrite get_setitem. Qed.

(** The buckets of one quantum key after the references of a row went in:
    a dataset type of the loop has the reference of the row stored under
    its key, the other buckets are as before. *)
Lemma addDataRefs_get row cs (q q' : QuantumIO) c :
  addDataRefs row cs q = Ok q' →
  dict.get q' c =
    if decide (c ∈ cs)
    then dataRef ← row_datasetRefs row !! c;
         Some (dict.setitem (default dict.empty (dict.get q c))
                            (_dataRefKey dataRef) dataRef)
    else dict.get q c.
Proof.
  revert q. induction cs as [|c0 cs IH]; intros q.
  - intros [= <-]. rewrite decide_False; [done|apply not_elem_of_nil].
  - rewrite addDataRefs_cons.
    intros (r & Hr%getitem_Ok & Hrest)%bind_Ok.
    rewrite (IH _ Hrest), get_putRef.
    destruct (decide (c ∈ cs)) as [Hin|Hin].
    + destruct (decide (c ∈ c0 :: cs)) as [_|Hn]; [|exfalso; apply Hn; by right].
      destruct (decide (c0 = c)) as [->|]; [|done].
      rewrite Hr; simpl. by rewrite setitem_setitem.
    + destruct (decide (c0 = c)) as [->|].
      * destruct (decide (c ∈ c :: cs)) as [_|Hn]; [|exfalso; apply Hn; by left].
        by rewrite Hr.
      * destruct (decide (c ∈ c0 :: cs)) as [[->|]%elem_of_cons|]; done.
Qed.

Lemma addDataRefs_keys row cs (q q' : QuantumIO) :
  addDataRefs row cs q = Ok q' →
  NoDup (dict.keys q) →
  NoDup (dict.keys q') ∧ ∀ c, c ∈ dict.keys q' ↔ c ∈ dict.keys q ∨ c ∈ cs.
Proof.
  revert q. induction cs as [|c0 cs IH]; intros q.
  - intros [= <-] ?. split; [done|]. set_solver.
  - rewrite addDataRefs_cons.
    intros (r & Hr%getitem_Ok & Hrest)%bind_Ok Hnd.
    destruct (IH _ Hrest) as [Hnd' Hkeys].
    { unfold putRef. by apply NoDup_keys_setitem. }
    split; [done|]. intros c. rewrite Hkeys. unfold putRef.
    rewrite elem_of_keys_setitem. set_solver.
Qed.

Lemma addDataRefs_succeeds row cs (q : QuantumIO) :
  succeeds (addDataRefs row cs q) ↔ ∀ c, c ∈ cs → is_Some (row_datasetRefs row !! c).
Proof.
  revert q. induction cs as [|c0 cs IH]; intros q.
  - split; [intros _ c ?%elem_of_nil; done|intros _; by eexists].
  - rewrite addDataRefs_cons. split.
    + intros [q' (r & Hr%getitem_Ok & Hrest)%bind_Ok] c [->|Hin]%elem_of_cons.
      * by rewrite Hr.
      * eapply IH; [by eexists|done].
    + intros Hall. destruct (Hall c0) as [r Hr]; [by left|].
      apply getitem_Ok in Hr. rewrite Hr; simpl.
      apply IH. intros c ?. apply Hall. by right.
Qed.

Lemma addDataRefs_KeyError row cs (q : QuantumIO) e :
  addDataRefs row cs q = Raise e → e = KeyError.
Proof.
  revert q. induction cs as [|c0 cs IH]; intros q; [done|].
  rewrite addDataRefs_cons.
  intros [Hr|(r & _ & Hrest)]%bind_Raise; [by apply getitem_KeyError in Hr|eauto].
Qed.

Lemma bucketOf_empty qlinks rows k c :
  (∀ row, row ∈ rows → quantumKey qlinks row ≠ Ok k) →
  bucketOf qlinks rows k c dict.empty.
Proof.
  intros Hnone. split_and!.
  - constructor.
  - by intros ?? ?%elem_of_nil.
  - intros row r Hrow Hk. by apply Hnone in Hrow.
Qed.

Lemma bucketOf_other qlinks rows row k k' c b :
  quantumKey qlinks row = Ok k' → k' ≠ k →
  bucketOf qlinks rows k c b → bucketOf qlinks (rows ++ [row]) k c b.
Proof.
  intros Hrow Hne (Hnd & Horig & Hall). split_and!; [done| |].
  - intros rk r [-> (row0 & ? & ? & ?)]%Horig. split; [done|].
    exists row0. split_and!; [|done..]. apply elem_of_app. by left.
  - intros row0 r [?| ->%list_elem_of_singleton]%elem_of_app Hk ?; [eauto|].
    congruence.
Qed.

Lemma bucketOf_setitem qlinks rows row k c b r :
  quantumKey qlinks row = Ok k → row_datasetRefs row !! c = Some r →
  bucketOf qlinks rows k c b →
  bucketOf qlinks (rows ++ [row]) k c (dict.setitem b (_dataRefKey r) r).
Proof.
  intros Hrow Hr (Hnd & Horig & Hall). split_and!.
  - by apply NoDup_keys_setitem.
  - intros rk r' [Heq|[-> (row0 & ? & ? & ?)]%Horig]%elem_of_setitem.
    + injection Heq as -> ->. split; [done|]. exists row. split_and!; [|done..].
      apply elem_of_app. right. by left.
    + split; [done|]. exists row0. split_and!; [|done..].
      apply elem_of_app. by left.
  - intros row0 r' Hin Hk Hr'. rewrite get_setitem. case_decide; [done|].
    apply elem_of_app in Hin as [?| ->%list_elem_of_singleton]; [eauto|].
    congruence.
Qed.

Lemma grouped_empty qlinks cs : grouped qlinks cs [] dict.empty.
Proof.
  split_and!; [constructor| |done].
  intros k. split; [by intros ?%elem_of_nil|by intros (? & ?%elem_of_nil & _)].
Qed.

Lemma grouped_step qlinks cs rows tq row k q' :
  grouped qlinks cs rows tq →
  quantumKey qlinks row = Ok k →
  addDataRefs row cs (default dict.empty (dict.get tq k)) = Ok q' →
  grouped qlinks cs (rows ++ [row]) (dict.setitem tq k q').
Proof.
  intros (Hnd & Hkeys & Hq) Hrow Hadd. split_and!.
  - by apply NoDup_keys_setitem.
  - intros k0. rewrite elem_of_keys_setitem, Hkeys. split.
    + intros [->|(row0 & ? & ?)].
      * exists row. split; [|done]. apply elem_of_app. right. by left.
      * exists row0. split; [|done]. apply elem_of_app. by left.
    + intros (row0 & [?| ->%list_elem_of_singleton]%elem_of_app & Hk0).
      * right. eauto.
      * left. congruence.
  - intros k0 q0. rewrite get_setitem. case_decide as Hk; [subst k0|].
    + intros [= <-].
      set (q := default dict.empty (dict.get tq k)) in *.
      assert (Hold : NoDup (dict.keys q) ∧
                (∀ c, c ∈ dict.keys q → c ∈ cs) ∧
                ∀ c, c ∈ cs →
                  bucketOf qlinks rows k c (default dict.empty (dict.get q c))).
      { subst q. destruct (dict.get tq k) as [q|] eqn:Hget; simpl.
        - destruct (Hq k q Hget) as (? & Hcs & Hb). split_and!; [done|by apply Hcs|].
          intros c Hc%Hcs. apply get_is_Some in Hc as [b Hb']. rewrite Hb'.
          by apply Hb.
        - split_and!; [constructor|by intros ? ?%elem_of_nil|].
          intros c _. apply bucketOf_empty.
          intros row0 Hin Hk0. apply get_None in Hget. apply Hget, Hkeys. eauto. }
      destruct Hold as (Hndq & Hsub & Hb).
      destruct (addDataRefs_keys _ _ _ _ Hadd Hndq) as [Hnd' Hkeys'].
      split_and!; [done|intros c; rewrite Hkeys'; naive_solver|].
      intros c b. rewrite (addDataRefs_get _ _ _ _ c Hadd).
      case_decide as Hc.
      * destruct (row_datasetRefs row !! c) as [r|] eqn:Hr; simpl; [|done].
        intros [= <-]. apply bucketOf_setitem; auto.
      * intros Hget. exfalso. apply Hc, Hsub, get_is_Some. by rewrite Hget.
    + intros Hget. destruct (Hq k0 q0 Hget) as (? & ? & Hb).
      split_and!; [done..|]. intros c b Hcb.
      eapply bucketOf_other; [done..|]. by apply Hb.
Qed.

Lemma forM_snoc {E A B} (f : A → result E B) xs x :
  forM f (xs ++ [x]) = ys ← forM f xs; y ← f x; Ok (ys ++ [y]).
Proof.
  induction xs as [|x0 xs IH]; simpl.
  - by destruct (f x).
  - destruct (f x0); simpl; [|done]. rewrite IH.
    destruct (forM f xs); simpl; [|done]. by destruct (f x).
Qed.

Lemma firstOccurrences_snoc {A} `{EqDecision A} (l : list A) x :
  firstOccurrences (l ++ [x]) =
  if decide (x ∈ firstOccurrences l)
  then firstOccurrences l else firstOccurrences l ++ [x].
Proof. unfold firstOccurrences. by rewrite foldl_app. Qed.

Lemma elem_of_firstOccurrences {A} `{EqDecision A} (l : list A) x :
  x ∈ firstOccurrences l ↔ x ∈ l.
Proof.
  induction l as [|y l IH] using rev_ind; [done|].
  rewrite firstOccurrences_snoc. case_decide; rewrite ?elem_of_app; set_solver.
Qed.

Lemma NoDup_firstOccurrences {A} `{EqDecision A} (l : list A) :
  NoDup (firstOccurrences l).
Proof.
  induction l as [|y l IH] using rev_ind; [constructor|].
  rewrite firstOccurrences_snoc. case_decide; [done|].
  apply NoDup_app. split_and!; [done| |apply NoDup_singleton].
  by intros ? ? ->%list_elem_of_singleton.
Qed.

(** The body of the loop over the rows, with the shared inner dicts
    written back. *)
Lemma addRow_unfold taskDss qlinks tqi tqo row :
  addRow taskDss qlinks (tqi, tqo) row =
  qkey ← quantumKey qlinks row;
  qinputs ← addDataRefs row (inputs taskDss)
                        (default dict.empty (dict.get tqi qkey));
  qoutputs ← addDataRefs row (outputs taskDss)
                         (default dict.empty (dict.get tqo qkey));
  Ok (dict.setitem tqi qkey qinputs, dict.setitem tqo qkey qoutputs).
Proof.
  unfold addRow. destruct (quantumKey qlinks row) as [k|e]; simpl; [|done].
  pose proof (setdefault_fst tqi k dict.empty) as Hi1.
  pose proof (setdefault_fst tqo k dict.empty) as Ho1.
  pose proof (λ x, setitem_setdefault tqi k dict.empty x) as Hi2.
  pose proof (λ x, setitem_setdefault tqo k dict.empty x) as Ho2.
  destruct (dict.setdefault tqi k dict.empty) as [qi tqi1].
  destruct (dict.setdefault tqo k dict.empty) as [qo tqo1].
  simpl in *. subst qi qo.
  destruct (addDataRefs row (inputs taskDss) _) as [qi'|e]; simpl; [|done].
  destruct (addDataRefs row (outputs taskDss) _) as [qo'|e]; simpl; [|done].
  by rewrite Hi2, Ho2.
Qed.

Lemma quantumKey_KeyError qlinks row e : quantumKey qlinks row = Raise e → e = KeyError.
Proof.
  unfold quantumKey. induction qlinks as [|col l IH]; simpl; [done|].
  destruct (getitem (row_dataId row) col) eqn:Hget; simpl.
  - destruct (forM _ l); simpl; [done|]. intros [= <-]. by apply IH.
  - intros [= <-]. by apply getitem_KeyError in Hget.
Qed.

Lemma addRow_succeeds taskDss qlinks acc row :
  succeeds (addRow taskDss qlinks acc row) ↔ rowReadable taskDss qlinks row.
Proof.
  destruct acc as [tqi tqo]. rewrite addRow_unfold. unfold rowReadable. split.
  - intros [[tqi' tqo'] (k & Hk & (qi & Hqi & (qo & Hqo & _)%bind_Ok)%bind_Ok)%bind_Ok].
    split; [by exists k|]. intros c [Hc|Hc]%elem_of_app.
    + exact (proj1 (addDataRefs_succeeds _ _ _) (ex_intro _ _ Hqi) c Hc).
    + exact (proj1 (addDataRefs_succeeds _ _ _) (ex_intro _ _ Hqo) c Hc).
  - intros [[k Hk] Hrefs]. rewrite Hk; simpl.
    destruct (proj2 (addDataRefs_succeeds row (inputs taskDss)
                       (default dict.empty (dict.get tqi k)))) as [qi ->].
    { intros c ?. apply Hrefs, elem_of_app. by left. }
    destruct (proj2 (addDataRefs_succeeds row (outputs taskDss)
                       (default dict.empty (dict.get tqo k)))) as [qo ->].
    { intros c ?. apply Hrefs, elem_of_app. by right. }
    by eexists.
Qed.

Lemma addRow_KeyError taskDss qlinks acc row e :
  addRow taskDss qlinks acc row = Raise e → e = KeyError.
Proof.
  destruct acc as [tqi tqo]. rewrite addRow_unfold.
  intros [?%quantumKey_KeyError|(k & _ & H)]%bind_Raise; [done|].
  apply bind_Raise in H as [?%addDataRefs_KeyError|(qi & _ & H)]; [done|].
  apply bind_Raise in H as [?%addDataRefs_KeyError|(qo & _ & H)]; done.
Qed.

Lemma foldM_succeeds {E A B} (P : A → Prop) (body : B → A → result E B) xs :
  (∀ acc x, succeeds (body acc x) ↔ P x) →
  ∀ acc, succeeds (foldM body acc xs) ↔ Forall P xs.
Proof.
  intros Hbody. induction xs as [|x xs IH]; intros acc; simpl.
  - split; [constructor|by eexists].
  - rewrite Forall_cons, <-(Hbody acc x). split.
    + intros [b (acc' & Hx & Hxs)%bind_Ok]. split; [by eexists|].
      eapply IH. by eexists.
    + intros [[acc' ->] Hxs]; simpl. by apply IH.
Qed.

(** The accumulation returns exactly when every row is readable. *)
Lemma groupRows_succeeds taskDss qlinks unitVerse :
  succeeds (groupRows taskDss qlinks unitVerse) ↔
  Forall (rowReadable taskDss qlinks) unitVerse.
Proof. apply foldM_succeeds. intros; apply addRow_succeeds. Qed.

Lemma groupRows_KeyError taskDss qlinks unitVerse e :
  groupRows taskDss qlinks unitVerse = Raise e → e = KeyError.
Proof.
  unfold groupRows. generalize (@dict.empty QKey QuantumIO, @dict.empty QKey QuantumIO).
  induction unitVerse as [|row rows IH]; intros acc; simpl; [done|].
  intros [?%addRow_KeyError|(acc' & _ & ?)]%bind_Raise; eauto.
Qed.

(** What the two dicts of a task hold when the loop over the rows ends;
    their keys are the quantum keys of the rows, in the order of first
    occurrence. *)
Lemma groupRows_spec taskDss qlinks unitVerse tqi tqo :
  groupRows taskDss qlinks unitVerse = Ok (tqi, tqo) →
  grouped qlinks (inputs taskDss) unitVerse tqi ∧
  grouped qlinks (outputs taskDss) unitVerse tqo ∧
  ∃ qkeys, forM (quantumKey qlinks) unitVerse = Ok qkeys ∧
           dict.keys tqi = firstOccurrences qkeys ∧
           dict.keys tqo = firstOccurrences qkeys.
Proof.
  unfold groupRows. revert tqi tqo.
  induction unitVerse as [|row rows IH] using rev_ind; intros tqi tqo.
  - intros [= <- <-]. split_and!; [apply grouped_empty..|]. by exists [].
  - rewrite foldM_snoc. intros ([tqi0 tqo0] & H0 & Hrow)%bind_Ok.
    destruct (IH _ _ H0) as (Hi & Ho & ks & Hks & Hki & Hko).
    rewrite addRow_unfold in Hrow.
    apply bind_Ok in Hrow as (k & Hk & Hrow).
    apply bind_Ok in Hrow as (qi & Hqi & Hrow).
    apply bind_Ok in Hrow as (qo & Hqo & [= <- <-]).
    split_and!; [by eapply grouped_step..|].
    exists (ks ++ [k]). rewrite forM_snoc, Hks; simpl. rewrite Hk; simpl.
    split; [done|].
    by rewrite !keys_setitem, firstOccurrences_snoc, Hki, Hko.
Qed.

Lemma groupRows_same_keys taskDss qlinks unitVerse tqi tqo :
  groupRows taskDss qlinks unitVerse = Ok (tqi, tqo) →
  dict.keys tqo = dict.keys tqi.
Proof. intros (_ & _ & ks & _ & -> & ->)%groupRows_spec. done. Qed.

(** ** [GraphBuilder._makeGraph]: the quanta of a task *)

Lemma foldl_addOutput q refs :
  foldl butler.addOutput q refs =
  butler.mkQuantum (butler.predictedInputs q) (butler.outputs q ++ refs).
Proof.
  revert q. induction refs as [|r refs IH]; intros [ins outs]; simpl.
  - by rewrite app_nil_r.
  - rewrite IH; simpl. by rewrite <-app_assoc.
Qed.

Lemma foldl_addPredictedInput q refs :
  foldl butler.addPredictedInput q refs =
  butler.mkQuantum (butler.predictedInputs q ++ refs) (butler.outputs q).
Proof.
  revert q. induction refs as [|r refs IH]; intros [ins outs]; simpl.
  - by rewrite app_nil_r.
  - rewrite IH; simpl. by rewrite <-app_assoc.
Qed.

Lemma foldl_addPredictedInputs q (buckets : list DataRefs) :
  foldl (λ quantum dataRefs,
           foldl butler.addPredictedInput quantum (dict.values dataRefs))
        q buckets =
  butler.mkQuantum (butler.predictedInputs q ++ concat (dict.values <$> buckets))
                   (butler.outputs q).
Proof.
  revert q. induction buckets as [|b bs IH]; intros [ins outs]; simpl.
  - by rewrite app_nil_r.
  - rewrite foldl_addPredictedInput, IH; simpl. by rewrite <-app_assoc.
Qed.

Lemma makeQuantum_decide self taskDss (tqi tqo : TaskQuanta) qkey qinputs qoutputs :
  dict.get tqi qkey = Some qinputs →
  dict.get tqo qkey = Some qoutputs →
  makeQuantum self taskDss tqi tqo qkey =
  decideQuantum (skipExisting self) (taskName (taskDef taskDss))
                (chainValues qinputs) (chainValues qoutputs).
Proof.
  intros Hi Ho. unfold makeQuantum, decideQuantum, dict_getitem.
  rewrite Ho, Hi; simpl.
  destruct (skipExisting self && _); [done|].
  destruct (existsb _ _); [done|].
  by rewrite foldl_addOutput, foldl_addPredictedInputs.
Qed.

Lemma forallb_exists_ refs :
  forallb exists_ refs = true ↔ ∀ ref, ref ∈ refs → id ref ≠ None.
Proof.
  induction refs as [|r refs IH]; simpl.
  - split; [by intros _ ? ?%elem_of_nil|done].
  - rewrite andb_true_iff, IH. unfold exists_ at 1. rewrite bool_decide_eq_true.
    set_solver.
Qed.

Lemma existsb_exists_ refs :
  existsb exists_ refs = true ↔ ∃ ref, ref ∈ refs ∧ id ref ≠ None.
Proof.
  induction refs as [|r refs IH]; simpl.
  - split; [done|by intros (? & ?%elem_of_nil & _)].
  - rewrite orb_true_iff, IH. unfold exists_ at 1. rewrite bool_decide_eq_true.
    set_solver.
Qed.

Lemma decideQuantum_Raise skip taskName ins outs e :
  decideQuantum skip taskName ins outs = Raise e →
  e = OutputExistsError taskName outs ∧ ∃ ref, ref ∈ outs ∧ id ref ≠ None.
Proof.
  unfold decideQuantum. destruct (skip && _); [done|].
  destruct (existsb _ _) eqn:Hex; [|done].
  intros [= <-]. split; [done|]. by apply existsb_exists_.
Qed.

Lemma decideQuantum_Some skip taskName ins outs q :
  decideQuantum skip taskName ins outs = Ok (Some q) →
  q = butler.mkQuantum ins outs ∧ ∀ ref, ref ∈ outs → id ref = None.
Proof.
  unfold decideQuantum. destruct (skip && _); [done|].
  destruct (existsb _ _) eqn:Hex; [done|].
  intros [= <-]. split; [done|]. intros ref Hin.
  destruct (id ref) eqn:Hid; [|done].
  assert (existsb exists_ outs = true); [|congruence].
  apply existsb_exists_. exists ref. split; [done|]. by rewrite Hid.
Qed.

Section makeQuanta_lemmas.
Context (self : GraphBuilder) (taskDss : _TaskDatasetTypes).
Context (tqi tqo : TaskQuanta).

Let body := addQuantum self taskDss tqi tqo.

Lemma addQuantum_Ok acc qkey quantum :
  makeQuantum self taskDss tqi tqo qkey = Ok quantum →
  body acc qkey = Ok (match quantum with
                      | None => acc
                      | Some quantum => acc ++ [quantum]
                      end).
Proof. intros Hq. unfold body, addQuantum. by rewrite Hq. Qed.

Lemma addQuantum_Raise acc qkey e :
  makeQuantum self taskDss tqi tqo qkey = Raise e → body acc qkey = Raise e.
Proof. intros Hq. unfold body, addQuantum. by rewrite Hq. Qed.

Lemma makeQuanta_loop_Ok qkeys acc quanta :
  foldM body acc qkeys = Ok quanta ↔
  ∃ made, Forall2 (λ qkey quantum, makeQuantum self taskDss tqi tqo qkey = Ok quantum)
                  qkeys made ∧
          quanta = acc ++ omap (λ quantum, quantum) made.
Proof.
  revert acc quanta. induction qkeys as [|k ks IH]; intros acc qs; simpl.
  - split.
    + intros [= <-]. exists []. split; [constructor|]. by rewrite app_nil_r.
    + intros (made & ->%Forall2_nil_inv_l & ->). by rewrite app_nil_r.
  - split.
    + intros (acc' & (o & Ho & [= <-])%bind_Ok & (made & Hmade & ->)%IH)%bind_Ok.
      exists (o :: made). split; [by constructor|].
      destruct o; simpl; [by rewrite <-app_assoc|done].
    + intros (made & (o & made' & Ho & Hmade & ->)%Forall2_cons_inv_l & ->).
      rewrite (addQuantum_Ok _ _ _ Ho); simpl. apply IH. exists made'.
      split; [done|]. destruct o; simpl; [by rewrite <-app_assoc|done].
Qed.

Lemma makeQuanta_Ok qkeys quanta :
  makeQuanta self taskDss tqi tqo qkeys = Ok quanta ↔
  ∃ made, Forall2 (λ qkey quantum, makeQuantum self taskDss tqi tqo qkey = Ok quantum)
                  qkeys made ∧
          quanta = omap (λ quantum, quantum) made.
Proof. apply makeQuanta_loop_Ok. Qed.

(** A key whose quantum is skipped could as well be absent. *)
Lemma makeQuanta_skip qkey qkeys :
  makeQuantum self taskDss tqi tqo qkey = Ok None →
  makeQuanta self taskDss tqi tqo qkeys =
  makeQuanta self taskDss tqi tqo (filter (λ k, k ≠ qkey) qkeys).
Proof.
  intros Hskip. unfold makeQuanta. fold body. generalize (@nil butler.Quantum).
  induction qkeys as [|k ks IH]; intros acc; simpl; [done|].
  rewrite filter_cons. case_decide as Hk; simpl.
  - destruct (body acc k); simpl; [apply IH|done].
  - subst k. rewrite (addQuantum_Ok _ _ _ Hskip); simpl.
    apply IH.
Qed.

(** The loop raises when one of its keys does, with the exception of the
    first such key. *)
Lemma makeQuanta_Raise qkeys qkey e :
  qkey ∈ qkeys →
  makeQuantum self taskDss tqi tqo qkey = Raise e →
  ∃ qkey' e', qkey' ∈ qkeys ∧
    makeQuantum self taskDss tqi tqo qkey' = Raise e' ∧
    makeQuanta self taskDss tqi tqo qkeys = Raise e'.
Proof.
  intros Hin Hraise. unfold makeQuanta. fold body. generalize (@nil butler.Quantum).
  induction qkeys as [|k ks IH]; intros acc; simpl.
  - by apply elem_of_nil in Hin.
  - destruct (makeQuantum self taskDss tqi tqo k) as [o|e0] eqn:Hk.
    + rewrite (addQuantum_Ok _ _ _ Hk); simpl.
      apply elem_of_cons in Hin as [->|Hin]; [congruence|].
      destruct (IH Hin (match o with None => acc | Some q => acc ++ [q] end))
        as (k' & e' & ? & ? & ?).
      exists k', e'. split_and!; [by right|done..].
    + rewrite (addQuantum_Raise _ _ _ Hk); simpl.
      exists k, e0. split_and!; [by left|done..].
Qed.
End makeQuanta_lemmas.

Section node_lemmas.
Context (self : GraphBuilder) (taskDss : _TaskDatasetTypes).
Context (unitVerse : list Row) (qlinks : list string) (tqi tqo : TaskQuanta).
Hypothesis Hlinks : quantumLinks self taskDss = Ok qlinks.
Hypothesis Hrows : groupRows taskDss qlinks unitVerse = Ok (tqi, tqo).

Lemma makeNodes_unfold :
  makeNodes self unitVerse taskDss =
  quanta ← makeQuanta self taskDss tqi tqo (dict.keys tqi);
  Ok (mkQuantumGraphNodes (taskDef taskDss) quanta).
Proof using Hlinks Hrows. unfold makeNodes. by rewrite Hlinks; simpl; rewrite Hrows. Qed.

Lemma grouped_key_both qkey :
  qkey ∈ dict.keys tqi ↔ qkey ∈ dict.keys tqo.
Proof using Hrows. by rewrite (groupRows_same_keys _ _ _ _ _ Hrows). Qed.

(** Neither [taskQuantaOutputs[qkey]] nor [taskQuantaInputs[qkey]] raises
    in the loop over the keys: the two dicts have the same keys. *)
Lemma makeQuantum_decide_key qkey :
  qkey ∈ dict.keys tqi →
  ∃ qinputs qoutputs,
    dict.get tqi qkey = Some qinputs ∧ dict.get tqo qkey = Some qoutputs ∧
    makeQuantum self taskDss tqi tqo qkey =
    decideQuantum (skipExisting self) (taskName (taskDef taskDss))
                  (chainValues qinputs) (chainValues qoutputs).
Proof using Hrows.
  intros Hin. pose proof Hin as Hout%grouped_key_both.
  apply get_is_Some in Hin as [qi Hi], Hout as [qo Ho].
  exists qi, qo. split_and!; [done..|]. by apply makeQuantum_decide.
Qed.

(** When the loop over the keys raises, it raises [OutputExistsError] for
    this task, with references of which one exists already. *)
Lemma makeNodes_Raise qkey e :
  qkey ∈ dict.keys tqi →
  makeQuantum self taskDss tqi tqo qkey = Raise e →
  ∃ refs,
    makeNodes self unitVerse taskDss
      = Raise (OutputExistsError (taskName (taskDef taskDss)) refs) ∧
    ∃ ref, ref ∈ refs ∧ id ref ≠ None.
Proof using Hlinks Hrows.
  intros Hin Hraise.
  destruct (makeQuanta_Raise self taskDss tqi tqo _ _ _ Hin Hraise)
    as (k' & e' & Hin' & Hraise' & Hloop).
  destruct (makeQuantum_decide_key k' Hin') as (qi & qo & _ & _ & Hdec).
  rewrite Hdec in Hraise'. apply decideQuantum_Raise in Hraise' as [-> Hex].
  exists (chainValues qo). split; [|done].
  by rewrite makeNodes_unfold, Hloop.
Qed.

(** No quantum of a node has an output that exists already. *)
Lemma makeNodes_outputs_new nodes q ref :
  makeNodes self unitVerse taskDss = Ok nodes →
  q ∈ quanta nodes → ref ∈ butler.outputs q → id ref = None.
Proof using Hlinks Hrows.
  rewrite makeNodes_unfold.
  intros (qs & (made & Hmade & ->)%makeQuanta_Ok & [= <-])%bind_Ok; simpl.
  intros (o & Ho & ->)%list_elem_of_omap Href.
  apply list_elem_of_lookup in Ho as [i Hi].
  destruct (Forall2_lookup_r _ _ _ _ _ Hmade Hi) as (k & Hk & Hq).
  apply list_elem_of_lookup_2 in Hk.
  destruct (makeQuantum_decide_key k Hk) as (qi & qo & _ & _ & Hdec).
  rewrite Hdec in Hq. apply decideQuantum_Some in Hq as [-> Hnew].
  by apply Hnew.
Qed.
End node_lemmas.

(** C5. A candidate quantum of which some but not all output references
    exist already makes the build raise, whatever [skipExisting] is: the
    loop body raises [OutputExistsError] with the name of the task and the
    output references of the quantum, the existing ones among them; the
    node of the task is not built, the exception of the task being an
    [OutputExistsError] with its name and an existing reference; and no
    graph is returned for a pipeline with this task. *)
Theorem C5_partial_outputs_raise
    self taskDss unitVerse qlinks tqi tqo qkey qoutputs :
  quantumLinks self taskDss = Ok qlinks →
  groupRows taskDss qlinks unitVerse = Ok (tqi, tqo) →
  dict.get tqo qkey = Some qoutputs →
  (∃ ref, ref ∈ chainValues qoutputs ∧ id ref ≠ None) →
  (∃ ref, ref ∈ chainValues qoutputs ∧ id ref = None) →
  makeQuantum self taskDss tqi tqo qkey
    = Raise (OutputExistsError (taskName (taskDef taskDss))
                               (chainValues qoutputs)) ∧
  (∃ refs,
     makeNodes self unitVerse taskDss
       = Raise (OutputExistsError (taskName (taskDef taskDss)) refs) ∧
     ∃ ref, ref ∈ refs ∧ id ref ≠ None) ∧
  ∀ taskDatasets,
    taskDss ∈ taskDatasets →
    raises (_makeGraph_unitVerse self taskDatasets unitVerse).
Proof.
  intros Hlinks Hrows Hout Hsome (r0 & Hr0 & Hnone).
  assert (Hin : qkey ∈ dict.keys tqi).
  { eapply grouped_key_both; [done|]. apply get_is_Some. by rewrite Hout. }
  destruct (makeQuantum_decide_key self _ _ _ _ _ Hrows qkey Hin)
    as (qi & qo & _ & Ho & Hdec).
  assert (qo = qoutputs) as -> by congruence.
  assert (Hraise : makeQuantum self taskDss tqi tqo qkey
            = Raise (OutputExistsError (taskName (taskDef taskDss))
                                       (chainValues qoutputs))).
  { rewrite Hdec. unfold decideQuantum.
    assert (forallb exists_ (chainValues qoutputs) = false) as ->.
    { apply not_true_is_false. rewrite forallb_exists_. intros Hall.
      by apply (Hall r0). }
    rewrite andb_false_r.
    by apply existsb_exists_ in Hsome as ->. }
  destruct (makeNodes_Raise self _ _ _ _ _ Hlinks Hrows _ _ Hin Hraise)
    as (refs & Hnodes & Hex).
  split_and!; [done|by exists refs|].
  intros taskDatasets Ht. eapply makeGraph_unitVerse_raises; [done|].
  by eexists.
Qed.

(** [TaskC] groups the two detectors of tract 5 into one quantum, of which
    the [calibrated] output of detector 1 exists and that of detector 2
    does not: the build raises with and without [skipExisting]. *)
Lemma C5_partial_outputs_raise_witness :
  let rows := [example.row 1 5 (Some 7%Z); example.row 2 5 None] in
  raises (_makeGraph_unitVerse (example.builder rows true)
                               [example.taskA; example.taskC] rows) ∧
  raises (_makeGraph_unitVerse (example.builder rows false)
                               [example.taskC] rows).
Proof.
  intros rows.
  assert (Hpartial : ∀ skip, ∀ taskDatasets, example.taskC ∈ taskDatasets →
            raises (_makeGraph_unitVerse (example.builder rows skip)
                                         taskDatasets rows)).
  { intros skip.
    eapply (C5_partial_outputs_raise (example.builder rows skip) example.taskC
              rows ["tract"] _ _ [("tract", VInt 5)]).
    - reflexivity.
    - reflexivity.
    - reflexivity.
    - exists (mkDatasetRef example.calibrated (example.at_ 1 5) (Some 7%Z)).
      split; [left|done].
    - exists (mkDatasetRef example.calibrated (example.at_ 2 5) None).
      split; [right; left|done]. }
  split; apply Hpartial.
  - right. left.
  - left.
Defined.

(** C4, as the code has it.  Let every output reference of a candidate
    quantum exist already.  With [skipExisting] the quantum is left out
    without an exception: the loop body continues, the loop over the keys
    runs as if the key were absent, and no quantum of the node has one of
    these references as output.  Without [skipExisting], and when the
    quantum has at least one output reference, the build raises: the loop
    body raises [OutputExistsError] with the name of the task and the
    output references, the task raises [OutputExistsError] with its name,
    and no graph is returned for a pipeline with this task. *)
Theorem C4_all_outputs_exist
    self taskDss unitVerse qlinks tqi tqo qkey qoutputs :
  quantumLinks self taskDss = Ok qlinks →
  groupRows taskDss qlinks unitVerse = Ok (tqi, tqo) →
  dict.get tqo qkey = Some qoutputs →
  (∀ ref, ref ∈ chainValues qoutputs → id ref ≠ None) →
  (skipExisting self = true →
     makeQuantum self taskDss tqi tqo qkey = Ok None ∧
     makeQuanta self taskDss tqi tqo (dict.keys tqi)
       = makeQuanta self taskDss tqi tqo (filter (λ k, k ≠ qkey) (dict.keys tqi)) ∧
     ∀ nodes q ref,
       makeNodes self unitVerse taskDss = Ok nodes → q ∈ quanta nodes →
       ref ∈ chainValues qoutputs → ref ∉ butler.outputs q) ∧
  (skipExisting self = false → chainValues qoutputs ≠ [] →
     makeQuantum self taskDss tqi tqo qkey
       = Raise (OutputExistsError (taskName (taskDef taskDss))
                                  (chainValues qoutputs)) ∧
     (∃ refs,
        makeNodes self unitVerse taskDss
          = Raise (OutputExistsError (taskName (taskDef taskDss)) refs)) ∧
     ∀ taskDatasets,
       taskDss ∈ taskDatasets →
       raises (_makeGraph_unitVerse self taskDatasets unitVerse)).
Proof.
  intros Hlinks Hrows Hout Hall.
  assert (Hin : qkey ∈ dict.keys tqi).
  { eapply grouped_key_both; [done|]. apply get_is_Some. by rewrite Hout. }
  destruct (makeQuantum_decide_key self _ _ _ _ _ Hrows qkey Hin)
    as (qi & qo & _ & Ho & Hdec).
  assert (qo = qoutputs) as -> by congruence.
  pose proof (proj2 (forallb_exists_ _) Hall) as Hforall.
  split.
  - intros Hskip.
    assert (Hnone : makeQuantum self taskDss tqi tqo qkey = Ok None).
    { rewrite Hdec. unfold decideQuantum. by rewrite Hskip, Hforall. }
    split_and!; [done|by apply makeQuanta_skip|].
    intros nodes q ref Hnodes Hq Href Hmem.
    apply (Hall ref Href).
    by eapply makeNodes_outputs_new.
  - intros Hskip Hne.
    assert (Hraise : makeQuantum self taskDss tqi tqo qkey
              = Raise (OutputExistsError (taskName (taskDef taskDss))
                                         (chainValues qoutputs))).
    { rewrite Hdec. unfold decideQuantum. rewrite Hskip; simpl.
      assert (existsb exists_ (chainValues qoutputs) = true) as ->; [|done].
      apply existsb_exists_. destruct (chainValues qoutputs) as [|r l]; [done|].
      exists r. split; [left|apply Hall; left]. }
    destruct (makeNodes_Raise self _ _ _ _ _ Hlinks Hrows _ _ Hin Hraise)
      as (refs & Hnodes & _).
    split_and!; [done|by exists refs|].
    intros taskDatasets Ht. eapply makeGraph_unitVerse_raises; [done|].
    by eexists.
Qed.

(** The [calibrated] output of detector 1 exists: with [skipExisting] the
    quantum of detector 1 is left out of the node of [TaskA], without it
    the build raises. *)
Lemma C4_all_outputs_exist_witness :
  let rows := [example.row 1 5 (Some 7%Z); example.row 2 5 None] in
  let existing := mkDatasetRef example.calibrated (example.at_ 1 5) (Some 7%Z) in
  (∀ nodes q,
     makeNodes (example.builder rows true) rows example.taskA = Ok nodes →
     q ∈ quanta nodes → existing ∉ butler.outputs q) ∧
  raises (_makeGraph_unitVerse (example.builder rows false) [example.taskA] rows).
Proof.
  intros rows existing.
  assert (Hall : ∀ skip,
    (skipExisting (example.builder rows skip) = true →
       ∀ nodes q,
         makeNodes (example.builder rows skip) rows example.taskA = Ok nodes →
         q ∈ quanta nodes → existing ∉ butler.outputs q) ∧
    (skipExisting (example.builder rows skip) = false →
       raises (_makeGraph_unitVerse (example.builder rows skip)
                                    [example.taskA] rows))).
  { intros skip.
    assert (Hrows : ∃ tqi tqo qoutputs,
              groupRows example.taskA ["detector"] rows = Ok (tqi, tqo) ∧
              dict.get tqo [("detector", VInt 1)] = Some qoutputs ∧
              chainValues qoutputs = [existing]).
    { do 3 eexists. split_and!; reflexivity. }
    destruct Hrows as (tqi & tqo & qoutputs & Hrows & Hget & Hchain).
    destruct (C4_all_outputs_exist (example.builder rows skip) example.taskA
                rows ["detector"] tqi tqo [("detector", VInt 1)] qoutputs)
      as [Hskip Hraise]; [reflexivity|done|done| |].
    - rewrite Hchain. intros ref ->%list_elem_of_singleton. done.
    - split.
      + intros Htrue nodes q Hnodes Hq.
        destruct (Hskip Htrue) as (_ & _ & Hout).
        apply (Hout nodes q existing Hnodes Hq). rewrite Hchain. left.
      + intros Hfalse.
        destruct (Hraise Hfalse) as (_ & _ & Hgraph); [by rewrite Hchain|].
        apply Hgraph. left. }
  split.
  - apply (Hall true). reflexivity.
  - apply (Hall false). reflexivity.
Defined.

(** The claim C4 as it is stated fails for a quantum without output
    references: all of them exist, vacuously, [skipExisting] is false, and
    the build returns a graph with the quantum instead of raising. *)
Lemma C4_counterexample :
  let rows := [example.row 1 5 None] in
  let self := example.builder rows false in
  ∃ tqi tqo qoutputs,
    groupRows example.taskD ["detector"] rows = Ok (tqi, tqo) ∧
    dict.get tqo [("detector", VInt 1)] = Some qoutputs ∧
    (∀ ref, ref ∈ chainValues qoutputs → id ref ≠ None) ∧
    skipExisting self = false ∧
    ¬ raises (_makeGraph_unitVerse self [example.taskD] rows) ∧
    ∃ qgraph,
      _makeGraph_unitVerse self [example.taskD] rows = Ok qgraph ∧
      example.summary qgraph = [("TaskD", [([Some 101%Z], [])])].
Proof.
  intros rows self. do 3 eexists. split_and!.
  - reflexivity.
  - reflexivity.
  - by intros ref ?%elem_of_nil.
  - reflexivity.
  - intros [e He]. vm_compute in He. discriminate He.
  - eexists. split; [reflexivity|]. vm_compute. reflexivity.
Qed.

Lemma get_keys_values {K V} `{EqDecision K} (d : dict.t K V) :
  NoDup (dict.keys d) →
  Forall2 (λ k v, dict.get d k = Some v) (dict.keys d) (dict.values d).
Proof.
  intros Hnd. unfold dict.keys, dict.values.
  apply Forall2_fmap, Forall_Forall2_diag, Forall_forall.
  intros [k v] Hin. by apply elem_of_get.
Qed.

Lemma omap_fmap_None {A B} (l : list A) :
  omap (λ o : option B, o) ((λ _, None) <$> l) = [].
Proof. by induction l. Qed.

Lemma omap_fmap_Some {A B} (f : A → B) (l : list A) :
  omap (λ o : option B, o) ((λ x, Some (f x)) <$> l) = f <$> l.
Proof. induction l as [|x l IH]; csimpl; [done|]. by rewrite IH. Qed.

Lemma grouped_no_dsTypes qlinks rows (tq : TaskQuanta) qkey q :
  grouped qlinks [] rows tq → dict.get tq qkey = Some q → q = dict.empty.
Proof.
  intros (_ & _ & Hq) Hget. destruct (Hq _ _ Hget) as (_ & Hkeys & _).
  destruct q as [|[c b] q]; [done|].
  exfalso. eapply not_elem_of_nil, Hkeys. left.
Qed.

(** C10. For a task that declares no output dataset type, every candidate
    quantum has an empty list of output references, for which the test
    that all outputs exist holds.  With [skipExisting] the node of the
    task is built without any quantum and without an exception; without
    it the node has one quantum per quantum key, in the order of the
    keys, with the input references of the key and no output. *)
Theorem C10_task_without_outputs self taskDss unitVerse qlinks tqi tqo :
  outputs taskDss = [] →
  quantumLinks self taskDss = Ok qlinks →
  groupRows taskDss qlinks unitVerse = Ok (tqi, tqo) →
  (∀ qkey, qkey ∈ dict.keys tqi →
     ∃ qoutputs, dict.get tqo qkey = Some qoutputs ∧
                 chainValues qoutputs = [] ∧
                 forallb exists_ (chainValues qoutputs) = true) ∧
  (skipExisting self = true →
     makeNodes self unitVerse taskDss
       = Ok (mkQuantumGraphNodes (taskDef taskDss) [])) ∧
  (skipExisting self = false →
     makeNodes self unitVerse taskDss
       = Ok (mkQuantumGraphNodes (taskDef taskDss)
               ((λ qinputs, butler.mkQuantum (chainValues qinputs) [])
                  <$> dict.values tqi))).
Proof.
  intros Hnone Hlinks Hrows.
  destruct (groupRows_spec _ _ _ _ _ Hrows) as (Hi & Ho & _).
  rewrite Hnone in Ho.
  assert (Hempty : ∀ qkey, qkey ∈ dict.keys tqi →
            dict.get tqo qkey = Some dict.empty).
  { intros qkey Hin.
    destruct (makeQuantum_decide_key self _ _ _ _ _ Hrows qkey Hin)
      as (qi & qo & _ & Hget & _).
    by rewrite (grouped_no_dsTypes _ _ _ _ _ Ho Hget) in Hget. }
  assert (Hmade : ∀ skip, skipExisting self = skip →
            Forall2 (λ qkey quantum,
                       makeQuantum self taskDss tqi tqo qkey = Ok quantum)
                    (dict.keys tqi)
                    ((λ qinputs,
                        if skip then None
                        else Some (butler.mkQuantum (chainValues qinputs) []))
                       <$> dict.values tqi)).
  { intros skip Hskip. apply Forall2_fmap_r.
    eapply Forall2_impl; [apply get_keys_values, Hi|].
    intros k qi Hget; simpl.
    assert (Hin : k ∈ dict.keys tqi) by (apply get_is_Some; by rewrite Hget).
    rewrite (makeQuantum_decide _ _ _ _ _ _ _ Hget (Hempty _ Hin)).
    unfold decideQuantum. rewrite Hskip. by destruct skip. }
  split_and!.
  - intros qkey Hin. exists dict.empty. by rewrite (Hempty _ Hin).
  - intros Hskip.
    rewrite (makeNodes_unfold _ _ _ _ _ _ Hlinks Hrows).
    rewrite (proj2 (makeQuanta_Ok self taskDss tqi tqo (dict.keys tqi) [])); [done|].
    exists ((λ _, None) <$> dict.values tqi).
    split; [exact (Hmade true Hskip)|]. by rewrite omap_fmap_None.
  - intros Hskip.
    rewrite (makeNodes_unfold _ _ _ _ _ _ Hlinks Hrows).
    erewrite (proj2 (makeQuanta_Ok self taskDss tqi tqo (dict.keys tqi) _)); [done|].
    exists ((λ qinputs, Some (butler.mkQuantum (chainValues qinputs) []))
              <$> dict.values tqi).
    split; [exact (Hmade false Hskip)|]. by rewrite omap_fmap_Some.
Qed.

(** [TaskD] reads [raw] per detector and writes nothing. *)
Lemma C10_task_without_outputs_witness :
  let rows := [example.row 1 5 None; example.row 2 5 None] in
  (∃ nodes,
     makeNodes (example.builder rows true) rows example.taskD = Ok nodes ∧
     quanta nodes = []) ∧
  (∃ nodes,
     makeNodes (example.builder rows false) rows example.taskD = Ok nodes ∧
     example.summary [nodes]
       = [("TaskD", [([Some 101%Z], []); ([Some 102%Z], [])])]).
Proof.
  intros rows.
  assert (Hrows : ∃ tqi tqo made,
            groupRows example.taskD ["detector"] rows = Ok (tqi, tqo) ∧
            (λ qinputs, butler.mkQuantum (chainValues qinputs) [])
              <$> dict.values tqi = made ∧
            example.summary
              [mkQuantumGraphNodes (taskDef example.taskD) made]
              = [("TaskD", [([Some 101%Z], []); ([Some 102%Z], [])])]).
  { do 3 eexists. split_and!; [reflexivity..|]. vm_compute. reflexivity. }
  destruct Hrows as (tqi & tqo & made & Hrows & Hmade & Hsummary).
  split.
  - destruct (C10_task_without_outputs (example.builder rows true) example.taskD
                rows ["detector"] tqi tqo eq_refl eq_refl Hrows)
      as (_ & Hskip & _).
    eexists. split; [by apply Hskip|done].
  - destruct (C10_task_without_outputs (example.builder rows false) example.taskD
                rows ["detector"] tqi tqo eq_refl eq_refl Hrows)
      as (_ & _ & Hkeep).
    eexists. split; [by apply Hkeep|]. by rewrite Hmade.
Defined.

(** ** [GraphBuilder._makeGraph]: the references of a quantum *)

Lemma elem_of_concat {A} (x : A) (ls : list (list A)) :
  x ∈ concat ls ↔ ∃ l, x ∈ l ∧ l ∈ ls.
Proof.
  induction ls as [|l ls IH]; simpl.
  - split; [by intros ?%elem_of_nil|by intros (? & _ & ?%elem_of_nil)].
  - rewrite elem_of_app, IH. split.
    + intros [?|(l' & ? & ?)]; [exists l|exists l']; split; try done;
        [left|by right].
    + intros (l' & ? & [->|?]%elem_of_cons); [by left|right; eauto].
Qed.

Lemma keys_of_bucket (b : DataRefs) :
  (∀ rk r, (rk, r) ∈ b → rk = _dataRefKey r) →
  dict.keys b = _dataRefKey <$> dict.values b.
Proof.
  unfold dict.keys, dict.values. induction b as [|[rk r] b IH]; intros Hb; [done|].
  simpl. rewrite (Hb rk r) by left. f_equal. apply IH.
  intros ???. apply Hb. by right.
Qed.

(** The references of a bucket have pairwise different data ids. *)
Lemma bucketOf_NoDup qlinks rows k c b :
  bucketOf qlinks rows k c b → NoDup (dataId <$> dict.values b).
Proof.
  intros (Hnd & Horig & _).
  rewrite keys_of_bucket in Hnd by (intros ?? ?%Horig; naive_solver).
  unfold _dataRefKey in Hnd.
  change (λ dataRef, merge_sort item_le (map_to_list (dataId dataRef)))
    with ((λ m : gmap string Value, merge_sort item_le (map_to_list m)) ∘ dataId)
    in Hnd.
  rewrite list_fmap_compose in Hnd. by apply NoDup_fmap_1 in Hnd.
Qed.

Lemma bucketOf_typed qlinks rows k c b ref :
  rowsTyped rows → bucketOf qlinks rows k c b →
  ref ∈ dict.values b → datasetType ref = c.
Proof.
  intros Htyped (_ & Horig & _) (rk & Hin)%elem_of_values.
  destruct (Horig _ _ Hin) as (_ & row & Hrow & _ & Href). by eapply Htyped.
Qed.

(** The buckets of one quantum key, as the list of their dataset types
    with their references. *)
Lemma grouped_buckets qlinks cs rows (tq : TaskQuanta) k q :
  grouped qlinks cs rows tq → dict.get tq k = Some q →
  NoDup (dict.keys q) ∧ Forall (λ cb, bucketOf qlinks rows k cb.1 cb.2) q.
Proof.
  intros (_ & _ & Hq) Hget. destruct (Hq _ _ Hget) as (Hnd & _ & Hb).
  split; [done|]. apply Forall_forall. intros [c b] Hin; simpl.
  apply Hb. by apply elem_of_get.
Qed.

Lemma chainValues_buckets (q : QuantumIO) :
  chainValues q = concat ((prod_map (λ c, c) dict.values <$> q).*2).
Proof.
  unfold chainValues, dict.values. f_equal.
  rewrite <-!list_fmap_compose. by apply list_fmap_ext; intros ? [c b].
Qed.

Lemma chainValues_NoDup qlinks rows k (q : QuantumIO) :
  rowsTyped rows →
  NoDup (dict.keys q) →
  Forall (λ cb, bucketOf qlinks rows k cb.1 cb.2) q →
  NoDup ((λ ref, (datasetType ref, dataId ref)) <$> chainValues q).
Proof.
  intros Htyped. unfold chainValues, dict.keys.
  induction q as [|[c b] q IH]; simpl; [constructor|].
  intros [Hc Hnd]%NoDup_cons [Hb Hq]%Forall_cons. simpl in *.
  rewrite fmap_app. apply NoDup_app. split_and!.
  - apply (NoDup_fmap_1 snd). rewrite <-list_fmap_compose.
    by eapply bucketOf_NoDup.
  - intros x (r & -> & Hr)%list_elem_of_fmap (r' & Heq & Hr')%list_elem_of_fmap.
    injection Heq as Hty _.
    rewrite (bucketOf_typed _ _ _ _ _ _ Htyped Hb Hr) in Hty.
    apply elem_of_concat in Hr' as (refs & Hr' & Hrefs).
    apply list_elem_of_fmap in Hrefs as (b' & -> & [c' Hb']%elem_of_values).
    pose proof (proj1 (Forall_forall _ _) Hq _ Hb') as Hbucket; simpl in Hbucket.
    rewrite (bucketOf_typed _ _ _ _ _ _ Htyped Hbucket Hr') in Hty. subst c'.
    apply Hc, list_elem_of_fmap. by exists (c, b').
  - by apply IH.
Qed.

(** The quanta of a node are those of the quantum keys that the decision
    keeps. *)
Lemma makeNodes_quantum self taskDss unitVerse qlinks tqi tqo nodes q :
  quantumLinks self taskDss = Ok qlinks →
  groupRows taskDss qlinks unitVerse = Ok (tqi, tqo) →
  makeNodes self unitVerse taskDss = Ok nodes → q ∈ quanta nodes →
  ∃ qkey qinputs qoutputs,
    qkey ∈ dict.keys tqi ∧
    dict.get tqi qkey = Some qinputs ∧ dict.get tqo qkey = Some qoutputs ∧
    q = butler.mkQuantum (chainValues qinputs) (chainValues qoutputs) ∧
    ∀ ref, ref ∈ chainValues qoutputs → id ref = None.
Proof.
  intros Hlinks Hrows. rewrite (makeNodes_unfold _ _ _ _ _ _ Hlinks Hrows).
  intros (qs & (made & Hmade & ->)%makeQuanta_Ok & [= <-])%bind_Ok; simpl.
  intros (o & Ho & ->)%list_elem_of_omap.
  apply list_elem_of_lookup in Ho as [i Hi].
  destruct (Forall2_lookup_r _ _ _ _ _ Hmade Hi) as (k & Hk & Hq).
  apply list_elem_of_lookup_2 in Hk.
  destruct (makeQuantum_decide_key self _ _ _ _ _ Hrows k Hk)
    as (qi & qo & Hgi & Hgo & Hdec).
  rewrite Hdec in Hq. apply decideQuantum_Some in Hq as [-> Hnew].
  by exists k, qi, qo.
Qed.

Lemma makeNodes_Ok self taskDss unitVerse nodes :
  makeNodes self unitVerse taskDss = Ok nodes →
  ∃ qlinks tqi tqo,
    quantumLinks self taskDss = Ok qlinks ∧
    groupRows taskDss qlinks unitVerse = Ok (tqi, tqo).
Proof.
  unfold makeNodes.
  intros (ql & Hql & ([tqi tqo] & Hrows & _)%bind_Ok)%bind_Ok.
  by exists ql, tqi, tqo.
Qed.

(** C8. In a graph that the build returns, the input references of a
    quantum are the concatenation of buckets, one per dataset type, no
    dataset type having two buckets and no bucket having two references
    with the same data id; so are its output references.  When every row
    stores under a dataset type a reference of that dataset type, no
    (dataset type, data id) pair occurs twice among the input references
    of a quantum, and none occurs twice among its output references. *)
Theorem C8_references_deduplicated
    self taskDatasets unitVerse qgraph nodes q :
  _makeGraph_unitVerse self taskDatasets unitVerse = Ok qgraph →
  nodes ∈ qgraph → q ∈ quanta nodes →
  (∃ ins outs : list (DatasetType * list DatasetRef),
     butler.predictedInputs q = concat ins.*2 ∧
     butler.outputs q = concat outs.*2 ∧
     NoDup ins.*1 ∧ NoDup outs.*1 ∧
     ∀ c refs, (c, refs) ∈ ins ++ outs → NoDup (dataId <$> refs)) ∧
  (rowsTyped unitVerse →
     NoDup ((λ ref, (datasetType ref, dataId ref)) <$> butler.predictedInputs q) ∧
     NoDup ((λ ref, (datasetType ref, dataId ref)) <$> butler.outputs q)).
Proof.
  intros Hgraph%makeGraph_unitVerse_nodes Hnodes Hq.
  apply list_elem_of_lookup in Hnodes as [i Hi].
  destruct (Forall2_lookup_r _ _ _ _ _ Hgraph Hi) as (taskDss & _ & Hmake).
  destruct (makeNodes_Ok _ _ _ _ Hmake) as (qlinks & tqi & tqo & Hlinks & Hrows).
  destruct (makeNodes_quantum _ _ _ _ _ _ _ _ Hlinks Hrows Hmake Hq)
    as (k & qi & qo & _ & Hgi & Hgo & -> & _); simpl.
  destruct (groupRows_spec _ _ _ _ _ Hrows) as (Hi' & Ho' & _).
  destruct (grouped_buckets _ _ _ _ _ _ Hi' Hgi) as [Hndi Hbi].
  destruct (grouped_buckets _ _ _ _ _ _ Ho' Hgo) as [Hndo Hbo].
  split.
  - exists (prod_map (λ c, c) dict.values <$> qi),
           (prod_map (λ c, c) dict.values <$> qo).
    assert (Hfst : ∀ q0 : QuantumIO,
              (prod_map (λ c, c) dict.values <$> q0).*1 = dict.keys q0).
    { intros q0. unfold dict.keys. rewrite <-list_fmap_compose.
      by apply list_fmap_ext; intros ? [??]. }
    rewrite !Hfst. split_and!; [apply chainValues_buckets..|done|done|].
    intros c refs [Hin|Hin]%elem_of_app;
      apply list_elem_of_fmap in Hin as ([c' b] & [= -> ->] & Hin).
    + eapply bucketOf_NoDup.
      exact (proj1 (Forall_forall _ _) Hbi _ Hin).
    + eapply bucketOf_NoDup.
      exact (proj1 (Forall_forall _ _) Hbo _ Hin).
  - intros Htyped. split; by eapply chainValues_NoDup.
Qed.

Lemma example_rows_typed rows :
  Forall (λ row, ∃ detector tract calibratedId,
                   row = example.row detector tract calibratedId) rows →
  rowsTyped rows.
Proof.
  intros Hrows row c ref Hin Href.
  apply (proj1 (Forall_forall _ _) Hrows) in Hin as (d & t & i & ->).
  unfold example.row in Href; simpl in Href.
  apply lookup_insert_Some in Href as [[<- <-]|[_ Href]]; [done|].
  apply lookup_insert_Some in Href as [[<- <-]|[_ Href]]; [done|].
  by apply lookup_singleton_Some in Href as [<- <-].
Qed.

(** Detector 1 comes in two rows: each quantum still has every
    (dataset type, data id) pair once. *)
Lemma C8_references_deduplicated_witness :
  let rows := [example.row 1 5 None; example.row 2 5 None; example.row 1 5 None] in
  ∃ qgraph,
    _makeGraph_unitVerse (example.builder rows true)
                         [example.taskA; example.taskB] rows = Ok qgraph ∧
    example.summary qgraph
      = [("TaskA", [([Some 101%Z], [None]); ([Some 102%Z], [None])]);
         ("TaskB", [([None; None], [None])])] ∧
    ∀ nodes q, nodes ∈ qgraph → q ∈ quanta nodes →
      NoDup ((λ ref, (datasetType ref, dataId ref)) <$> butler.predictedInputs q) ∧
      NoDup ((λ ref, (datasetType ref, dataId ref)) <$> butler.outputs q).
Proof.
  intros rows.
  assert (Hrun : ∃ qgraph,
            _makeGraph_unitVerse (example.builder rows true)
                                 [example.taskA; example.taskB] rows = Ok qgraph ∧
            example.summary qgraph
              = [("TaskA", [([Some 101%Z], [None]); ([Some 102%Z], [None])]);
                 ("TaskB", [([None; None], [None])])]).
  { eexists. split; [reflexivity|]. vm_compute. reflexivity. }
  destruct Hrun as (qgraph & Hrun & Hsummary).
  exists qgraph. split_and!; [done..|].
  intros nodes q Hnodes Hq.
  apply (C8_references_deduplicated _ _ _ _ _ _ Hrun Hnodes Hq).
  apply example_rows_typed. repeat constructor; by do 3 eexists.
Defined.

(** ** [GraphBuilder._makeGraph]: a reference that arrives twice *)

(** C2, as the code has it.  When a bucket holds a reference and a row
    brings a reference of the same dataset type and data id, the insertion
    does not raise: the reference of the row takes the place of the earlier
    one under the same key, at the same position, and the bucket gets no
    new entry.  When the two references are equal the buckets are
    unchanged. *)
Theorem C2_later_reference_replaces
    row dsType (q : QuantumIO) (bucket : DataRefs) earlier later :
  dict.get q dsType = Some bucket →
  dict.get bucket (_dataRefKey earlier) = Some earlier →
  row_datasetRefs row !! dsType = Some later →
  dataId later = dataId earlier →
  ∃ bucket',
    addDataRefs row [dsType] q = Ok (dict.setitem q dsType bucket') ∧
    bucket' = dict.setitem bucket (_dataRefKey later) later ∧
    dict.get bucket' (_dataRefKey earlier) = Some later ∧
    dict.keys bucket' = dict.keys bucket ∧
    dict.keys (dict.setitem q dsType bucket') = dict.keys q ∧
    (later = earlier → bucket' = bucket ∧ dict.setitem q dsType bucket' = q).
Proof.
  intros Hq Hb Hrow Hid.
  assert (Hkey : _dataRefKey later = _dataRefKey earlier)
    by (unfold _dataRefKey; by rewrite Hid).
  exists (dict.setitem bucket (_dataRefKey later) later).
  split_and!.
  - rewrite addDataRefs_cons. apply getitem_Ok in Hrow. rewrite Hrow; simpl.
    unfold putRef. by rewrite Hq.
  - done.
  - rewrite get_setitem, Hkey. by rewrite decide_True.
  - apply keys_setitem_present, get_is_Some. by rewrite Hkey, Hb.
  - apply keys_setitem_present, get_is_Some. by rewrite Hq.
  - intros ->. rewrite (setitem_same bucket) by done.
    split; [done|]. by apply setitem_same.
Qed.

Lemma C2_later_reference_replaces_witness :
  let earlier := mkDatasetRef example.calibrated (example.at_ 1 5) (Some 7%Z) in
  let later := mkDatasetRef example.calibrated (example.at_ 1 5) None in
  let bucket : DataRefs := [(_dataRefKey earlier, earlier)] in
  addDataRefs (example.row 1 5 None) [example.calibrated]
              [(example.calibrated, bucket)]
    = Ok [(example.calibrated, [(_dataRefKey earlier, later)])].
Proof.
  intros earlier later bucket.
  destruct (C2_later_reference_replaces (example.row 1 5 None) example.calibrated
              [(example.calibrated, bucket)] bucket earlier later)
    as (bucket' & -> & -> & _); [vm_compute; reflexivity..|].
  vm_compute. reflexivity.
Defined.

(** The claim C2 as it is stated fails.  Detector 1 comes in two rows,
    first with the identity of its [calibrated] dataset, then without:
    after the first row the bucket holds the reference with the identity,
    after the second it holds the one without.  The build signals nothing
    and returns a graph in which the quantum has the output without
    identity. *)
Lemma C2_counterexample :
  let earlier := mkDatasetRef example.calibrated (example.at_ 1 5) (Some 7%Z) in
  let later := mkDatasetRef example.calibrated (example.at_ 1 5) None in
  let rows := [example.row 1 5 (Some 7%Z); example.row 1 5 None] in
  (∃ tqi tqo, groupRows example.taskA ["detector"] (take 1 rows) = Ok (tqi, tqo) ∧
              chainValues <$> dict.values tqo = [[earlier]]) ∧
  (∃ tqi tqo, groupRows example.taskA ["detector"] rows = Ok (tqi, tqo) ∧
              chainValues <$> dict.values tqo = [[later]]) ∧
  later ≠ earlier ∧
  ∃ qgraph,
    _makeGraph_unitVerse (example.builder rows true) [example.taskA] rows
      = Ok qgraph ∧
    butler.outputs <$> (qgraph ≫= quanta) = [[later]].
Proof.
  intros earlier later rows. split_and!.
  - do 2 eexists. split; [reflexivity|]. vm_compute. reflexivity.
  - do 2 eexists. split; [reflexivity|]. vm_compute. reflexivity.
  - done.
  - eexists. split; [reflexivity|]. vm_compute. reflexivity.
Qed.

(** ** [GraphBuilder._makeGraph]: the order of the rows *)

(** Two references have the same key exactly when they have the same
    data id. *)
Lemma dataRefKey_inj ref1 ref2 :
  _dataRefKey ref1 = _dataRefKey ref2 ↔ dataId ref1 = dataId ref2.
Proof.
  unfold _dataRefKey. split; [|by intros ->].
  intros Heq. apply map_to_list_inj.
  rewrite <-(merge_sort_Permutation item_le (map_to_list (dataId ref1))).
  rewrite Heq. apply merge_sort_Permutation.
Qed.

(** The references of one quantum key are those that the rows of the key
    hold for the dataset types of the loop, when the rows are consistent. *)
Lemma chainValues_spec qlinks cs rows (tq : TaskQuanta) k q ref :
  grouped qlinks cs rows tq → rowsConsistent rows →
  dict.get tq k = Some q →
  ref ∈ chainValues q ↔
  ∃ c row, c ∈ cs ∧ row ∈ rows ∧ quantumKey qlinks row = Ok k ∧
           row_datasetRefs row !! c = Some ref.
Proof.
  intros (_ & _ & Hq) Hcons Hget.
  destruct (Hq _ _ Hget) as (Hnd & Hkeys & Hb).
  unfold chainValues. rewrite elem_of_concat. split.
  - intros (refs & Href & (b & -> & [c Hcb]%elem_of_values)%list_elem_of_fmap).
    apply elem_of_values in Href as [rk Hrk].
    apply elem_of_get in Hcb as Hgc; [|done].
    destruct (Hb _ _ Hgc) as (_ & Horig & _).
    destruct (Horig _ _ Hrk) as (_ & row & ? & ? & ?).
    exists c, row. split_and!; [|done..].
    apply Hkeys, elem_of_keys. by exists b.
  - intros (c & row & Hc & Hrow & Hk & Href).
    apply Hkeys, get_is_Some in Hc as [b Hgc].
    destruct (Hb _ _ Hgc) as (_ & Horig & Hall).
    destruct (Hall _ _ Hrow Hk Href) as [ref' Hget'].
    apply get_Some_elem_of in Hget' as Hin.
    destruct (Horig _ _ Hin) as (Hkey & row' & Hrow' & _ & Href').
    assert (ref' = ref) as ->.
    { apply dataRefKey_inj in Hkey.
      by apply (Hcons row' row c ref' ref). }
    exists (dict.values b). split.
    + apply elem_of_values. by eexists.
    + apply list_elem_of_fmap. exists b. split; [done|].
      apply elem_of_values. exists c. by apply get_Some_elem_of.
Qed.

Lemma rowsConsistent_Permutation rows rows' :
  rows ≡ₚ rows' → rowsConsistent rows → rowsConsistent rows'.
Proof.
  intros Hperm Hcons row1 row2 c r1 r2 H1 H2.
  rewrite <-Hperm in H1, H2. by apply Hcons.
Qed.

(** The decision on a quantum depends on its references as sets. *)
Lemma decideQuantum_sameRefs skip taskName ins outs ins' outs' :
  (∀ ref, ref ∈ ins ↔ ref ∈ ins') →
  (∀ ref, ref ∈ outs ↔ ref ∈ outs') →
  match decideQuantum skip taskName ins outs,
        decideQuantum skip taskName ins' outs' with
  | Ok None, Ok None => True
  | Ok (Some q), Ok (Some q') => sameRefs q q'
  | Raise _, Raise _ => True
  | _, _ => False
  end.
Proof.
  intros Hins Houts. unfold decideQuantum.
  assert (forallb exists_ outs = forallb exists_ outs') as <-.
  { apply eq_true_iff_eq. rewrite !forallb_exists_.
    split; intros Hall ref Href; apply Hall; by apply Houts. }
  assert (existsb exists_ outs = existsb exists_ outs') as <-.
  { apply eq_true_iff_eq. rewrite !existsb_exists_.
    split; intros (ref & ? & ?); exists ref; split; try done; by apply Houts. }
  destruct (skip && _); [done|]. destruct (existsb _ _); [done|].
  by split.
Qed.

Lemma makeQuanta_quantumOf self taskDss tqi tqo qkeys :
  (∀ k, k ∈ qkeys → succeeds (makeQuantum self taskDss tqi tqo k)) →
  makeQuanta self taskDss tqi tqo qkeys
    = Ok (omap (quantumOf self taskDss tqi tqo) qkeys).
Proof.
  intros Hall. apply makeQuanta_Ok.
  exists (quantumOf self taskDss tqi tqo <$> qkeys). split.
  - apply Forall2_fmap_r, Forall_Forall2_diag, Forall_forall.
    intros k Hk. unfold compose, quantumOf. by destruct (Hall k Hk) as [o ->].
  - induction qkeys as [|k ks IH]; csimpl; [done|].
    rewrite <-IH by (intros; apply Hall; by right). done.
Qed.

Lemma makeQuanta_succeeds self taskDss tqi tqo qkeys quanta k :
  makeQuanta self taskDss tqi tqo qkeys = Ok quanta → k ∈ qkeys →
  succeeds (makeQuantum self taskDss tqi tqo k).
Proof.
  intros (made & Hmade & _)%makeQuanta_Ok [i Hi]%list_elem_of_lookup.
  destruct (Forall2_lookup_l _ _ _ _ _ Hmade Hi) as (o & _ & Ho). by exists o.
Qed.

Section permutation.
Context (self : GraphBuilder) (taskDss : _TaskDatasetTypes) (qlinks : list string).
Context (rows rows' : list Row) (tqi tqo tqi' tqo' : TaskQuanta).
Hypothesis Hperm : rows ≡ₚ rows'.
Hypothesis Hcons : rowsConsistent rows.
Hypothesis Hrows : groupRows taskDss qlinks rows = Ok (tqi, tqo).
Hypothesis Hrows' : groupRows taskDss qlinks rows' = Ok (tqi', tqo').

Lemma permutation_keys : dict.keys tqi ≡ₚ dict.keys tqi'.
Proof using Hperm Hrows Hrows'.
  destruct (groupRows_spec _ _ _ _ _ Hrows) as ((Hnd & Hk & _) & _).
  destruct (groupRows_spec _ _ _ _ _ Hrows') as ((Hnd' & Hk' & _) & _).
  apply NoDup_Permutation; [done..|].
  intros k. rewrite Hk, Hk'. by setoid_rewrite Hperm.
Qed.

Lemma permutation_chainValues cs (tq tq' : TaskQuanta) k q q' ref :
  grouped qlinks cs rows tq → grouped qlinks cs rows' tq' →
  dict.get tq k = Some q → dict.get tq' k = Some q' →
  ref ∈ chainValues q ↔ ref ∈ chainValues q'.
Proof using Hperm Hcons.
  intros Hg Hg' Hget Hget'.
  rewrite (chainValues_spec _ _ _ _ _ _ _ Hg Hcons Hget).
  rewrite (chainValues_spec _ _ _ _ _ _ _ Hg'
             (rowsConsistent_Permutation _ _ Hperm Hcons) Hget').
  by setoid_rewrite Hperm.
Qed.

(** For a key of the task, the loop body decides alike on the two orders
    of the rows. *)
Lemma permutation_makeQuantum k :
  k ∈ dict.keys tqi →
  match makeQuantum self taskDss tqi tqo k,
        makeQuantum self taskDss tqi' tqo' k with
  | Ok None, Ok None => True
  | Ok (Some q), Ok (Some q') => sameRefs q q'
  | Raise _, Raise _ => True
  | _, _ => False
  end.
Proof using Hperm Hcons Hrows Hrows'.
  intros Hk. pose proof Hk as Hk'. rewrite permutation_keys in Hk'.
  destruct (makeQuantum_decide_key self _ _ _ _ _ Hrows k Hk)
    as (qi & qo & Hgi & Hgo & ->).
  destruct (makeQuantum_decide_key self _ _ _ _ _ Hrows' k Hk')
    as (qi' & qo' & Hgi' & Hgo' & ->).
  destruct (groupRows_spec _ _ _ _ _ Hrows) as (Hi & Ho & _).
  destruct (groupRows_spec _ _ _ _ _ Hrows') as (Hi' & Ho' & _).
  apply decideQuantum_sameRefs; intros ref.
  - exact (permutation_chainValues _ _ _ k _ _ ref Hi Hi' Hgi Hgi').
  - exact (permutation_chainValues _ _ _ k _ _ ref Ho Ho' Hgo Hgo').
Qed.

Lemma permutation_makeQuanta quanta :
  makeQuanta self taskDss tqi tqo (dict.keys tqi) = Ok quanta →
  ∃ quanta',
    makeQuanta self taskDss tqi' tqo' (dict.keys tqi') = Ok quanta' ∧
    ∃ qs, quanta ≡ₚ qs ∧ Forall2 sameRefs qs quanta'.
Proof using Hperm Hcons Hrows Hrows'.
  intros Hq.
  assert (Hok : ∀ k, k ∈ dict.keys tqi →
            succeeds (makeQuantum self taskDss tqi tqo k))
    by (intros; by eapply makeQuanta_succeeds).
  assert (Hok' : ∀ k, k ∈ dict.keys tqi' →
            succeeds (makeQuantum self taskDss tqi' tqo' k)).
  { intros k Hk. rewrite <-permutation_keys in Hk.
    pose proof (permutation_makeQuantum k Hk) as Hrel.
    destruct (Hok k Hk) as [o Ho]. rewrite Ho in Hrel.
    destruct (makeQuantum self taskDss tqi' tqo' k) as [o'|]; [by exists o'|].
    by destruct o. }
  rewrite (makeQuanta_quantumOf _ _ _ _ _ Hok) in Hq. injection Hq as <-.
  rewrite (makeQuanta_quantumOf _ _ _ _ _ Hok').
  eexists. split; [done|].
  exists (omap (quantumOf self taskDss tqi tqo) (dict.keys tqi')).
  split; [by rewrite permutation_keys|].
  assert (Hsub : ∀ k, k ∈ dict.keys tqi' → k ∈ dict.keys tqi)
    by (intros k; by rewrite permutation_keys).
  revert Hsub. generalize (dict.keys tqi'). intros ks.
  induction ks as [|k ks IH]; intros Hsub; csimpl; [constructor|].
  assert (IH' := IH (λ k0 Hk0, Hsub k0 ltac:(by right))).
  assert (Hrel : option_Forall2 sameRefs (quantumOf self taskDss tqi tqo k)
                                (quantumOf self taskDss tqi' tqo' k)).
  { pose proof (permutation_makeQuantum k (Hsub k ltac:(left))) as Hrel.
    destruct (Hok k (Hsub k ltac:(left))) as [o Ho]. unfold quantumOf.
    rewrite Ho in Hrel |- *.
    destruct (makeQuantum self taskDss tqi' tqo' k) as [o'|]; [|by destruct o].
    destruct o, o'; try done; by constructor. }
  destruct Hrel; [by constructor|done].
Qed.
End permutation.

(** The node of a task on a permutation of consistent rows. *)
Lemma makeNodes_permutation self taskDss rows rows' nodes :
  rows ≡ₚ rows' → rowsConsistent rows →
  makeNodes self rows taskDss = Ok nodes →
  ∃ nodes',
    makeNodes self rows' taskDss = Ok nodes' ∧
    node_taskDef nodes = node_taskDef nodes' ∧
    ∃ qs, quanta nodes ≡ₚ qs ∧ Forall2 sameRefs qs (quanta nodes').
Proof.
  intros Hperm Hcons Hmake.
  destruct (makeNodes_Ok _ _ _ _ Hmake) as (qlinks & tqi & tqo & Hlinks & Hrows).
  assert (Hrows' : succeeds (groupRows taskDss qlinks rows')).
  { apply groupRows_succeeds. rewrite <-Hperm. apply groupRows_succeeds.
    by eexists. }
  destruct Hrows' as [[tqi' tqo'] Hrows'].
  rewrite (makeNodes_unfold _ _ _ _ _ _ Hlinks Hrows) in Hmake.
  apply bind_Ok in Hmake as (qs & Hqs & [= <-]).
  destruct (permutation_makeQuanta self taskDss qlinks rows rows'
              tqi tqo tqi' tqo' Hperm Hcons Hrows Hrows' qs Hqs)
    as (qs' & Hqs' & Hrel).
  exists (mkQuantumGraphNodes (taskDef taskDss) qs').
  rewrite (makeNodes_unfold _ _ _ _ _ _ Hlinks Hrows'), Hqs'. done.
Qed.

(** The quanta of a node follow the first occurrences of the quantum keys
    in the rows. *)
Lemma makeNodes_order self taskDss rows nodes :
  makeNodes self rows taskDss = Ok nodes →
  ∃ qlinks tqi tqo qkeys,
    quantumLinks self taskDss = Ok qlinks ∧
    groupRows taskDss qlinks rows = Ok (tqi, tqo) ∧
    forM (quantumKey qlinks) rows = Ok qkeys ∧
    dict.keys tqi = firstOccurrences qkeys ∧
    quanta nodes = omap (quantumOf self taskDss tqi tqo) (firstOccurrences qkeys).
Proof.
  intros Hmake.
  destruct (makeNodes_Ok _ _ _ _ Hmake) as (qlinks & tqi & tqo & Hlinks & Hrows).
  destruct (groupRows_spec _ _ _ _ _ Hrows) as (_ & _ & qkeys & Hkeys & Hki & _).
  exists qlinks, tqi, tqo, qkeys. split_and!; [done..|].
  rewrite (makeNodes_unfold _ _ _ _ _ _ Hlinks Hrows) in Hmake.
  apply bind_Ok in Hmake as (qs & Hqs & [= <-]); simpl.
  rewrite makeQuanta_quantumOf in Hqs by (intros; by eapply makeQuanta_succeeds).
  injection Hqs as <-. by rewrite Hki.
Qed.

(** C1, as the code has it.  Take two orders of the same rows, the rows
    agreeing on the reference of a dataset type at a data id.  When the
    build returns a graph on the first order, it returns one on the second;
    the two graphs have the same task definitions, node by node, and the
    quanta of a node of the first are, up to their order, in one-to-one
    correspondence with those of the second, corresponding quanta having
    the same input references and the same output references as sets.
    The quanta of a node come in the order in which the quantum keys
    first occur in the rows. *)
Theorem C1_order_of_rows self taskDatasets rows rows' qgraph :
  rows ≡ₚ rows' → rowsConsistent rows →
  _makeGraph_unitVerse self taskDatasets rows = Ok qgraph →
  (∃ qgraph',
     _makeGraph_unitVerse self taskDatasets rows' = Ok qgraph' ∧
     Forall2 (λ nodes nodes',
                node_taskDef nodes = node_taskDef nodes' ∧
                ∃ qs, quanta nodes ≡ₚ qs ∧ Forall2 sameRefs qs (quanta nodes'))
             qgraph qgraph') ∧
  Forall2 (λ taskDss nodes,
             ∃ qlinks tqi tqo qkeys,
               quantumLinks self taskDss = Ok qlinks ∧
               groupRows taskDss qlinks rows = Ok (tqi, tqo) ∧
               forM (quantumKey qlinks) rows = Ok qkeys ∧
               dict.keys tqi = firstOccurrences qkeys ∧
               quanta nodes = omap (quantumOf self taskDss tqi tqo)
                                   (firstOccurrences qkeys))
          taskDatasets qgraph.
Proof.
  intros Hperm Hcons Hgraph%makeGraph_unitVerse_nodes. split.
  - assert (∃ qgraph',
              Forall2 (λ taskDss nodes, makeNodes self rows' taskDss = Ok nodes)
                      taskDatasets qgraph' ∧
              Forall2 (λ nodes nodes',
                         node_taskDef nodes = node_taskDef nodes' ∧
                         ∃ qs, quanta nodes ≡ₚ qs ∧
                               Forall2 sameRefs qs (quanta nodes'))
                      qgraph qgraph') as (qgraph' & Hgraph' & Hrel).
    { induction Hgraph as [|t n l g Hn _ (g' & Hg' & Hrel)].
      - exists []. split; constructor.
      - destruct (makeNodes_permutation _ _ _ _ _ Hperm Hcons Hn)
          as (n' & Hn' & Hdef & Hqs).
        exists (n' :: g'). split; by constructor. }
    exists qgraph'. split; [by apply makeGraph_unitVerse_nodes|done].
  - eapply Forall2_impl; [done|]. intros t n Hn. by apply makeNodes_order.
Qed.

Lemma example_rows_consistent rows :
  Forall (λ row, ∃ detector tract, row = example.row detector tract None) rows →
  rowsConsistent rows.
Proof.
  intros Hrows row1 row2 c r1 r2 H1 H2 Hr1 Hr2 Hid.
  apply (proj1 (Forall_forall _ _) Hrows) in H1 as (d1 & t1 & ->).
  apply (proj1 (Forall_forall _ _) Hrows) in H2 as (d2 & t2 & ->).
  assert (Hat : example.at_ d1 t1 = example.at_ d2 t2 → d1 = d2 ∧ t1 = t2).
  { unfold example.at_. intros Heq. split.
    - apply (f_equal (λ m, m !! "detector")) in Heq.
      rewrite !lookup_insert_eq in Heq. congruence.
    - apply (f_equal (λ m, m !! "tract")) in Heq.
      rewrite !lookup_insert_ne, !lookup_singleton_eq in Heq by done.
      congruence. }
  unfold example.row in Hr1, Hr2; simpl in Hr1, Hr2.
  apply lookup_insert_Some in Hr1 as [[<- <-]|[Hne Hr1]].
  { rewrite lookup_insert_eq in Hr2. injection Hr2 as <-. simpl in Hid.
    by destruct (Hat Hid) as [-> ->]. }
  rewrite lookup_insert_ne in Hr2 by done.
  apply lookup_insert_Some in Hr1 as [[<- <-]|[Hne' Hr1]].
  { rewrite lookup_insert_eq in Hr2. injection Hr2 as <-. simpl in Hid.
    by destruct (Hat Hid) as [-> ->]. }
  rewrite lookup_insert_ne in Hr2 by done.
  apply lookup_singleton_Some in Hr1 as [<- <-].
  rewrite lookup_singleton_eq in Hr2. injection Hr2 as <-. simpl in Hid.
  apply (f_equal (λ m, m !! "tract")) in Hid.
  rewrite !lookup_singleton_eq in Hid. congruence.
Qed.

(** Two detectors of one tract, in the two orders. *)
Lemma C1_order_of_rows_witness :
  let rows := [example.row 1 5 None; example.row 2 5 None] in
  let rows' := [example.row 2 5 None; example.row 1 5 None] in
  ∃ qgraph qgraph',
    _makeGraph_unitVerse (example.builder rows true)
                         [example.taskA; example.taskB] rows = Ok qgraph ∧
    _makeGraph_unitVerse (example.builder rows true)
                         [example.taskA; example.taskB] rows' = Ok qgraph' ∧
    Forall2 (λ nodes nodes',
               node_taskDef nodes = node_taskDef nodes' ∧
               ∃ qs, quanta nodes ≡ₚ qs ∧ Forall2 sameRefs qs (quanta nodes'))
            qgraph qgraph'.
Proof.
  intros rows rows'.
  assert (Hrun : ∃ qgraph,
            _makeGraph_unitVerse (example.builder rows true)
                                 [example.taskA; example.taskB] rows = Ok qgraph)
    by (eexists; reflexivity).
  destruct Hrun as [qgraph Hrun].
  destruct (C1_order_of_rows (example.builder rows true)
              [example.taskA; example.taskB] rows rows' qgraph)
    as [(qgraph' & Hrun' & Hrel) _].
  - apply perm_swap.
  - apply example_rows_consistent. repeat constructor; by do 2 eexists.
  - exact Hrun.
  - exists qgraph, qgraph'. split; [exact Hrun|]. split; [exact Hrun'|exact Hrel].
Defined.

(** The claim C1 as it is stated fails on both counts.  The order of the
    quanta of a task is the order in which the rows bring the quantum
    keys: the two orders of two detectors give the two quanta of [TaskA]
    in opposite orders.  And with rows that disagree on the identity of an
    output, the quanta differ as sets: [TaskA] has one quantum when the row
    without the identity comes last and none when it comes first. *)
Lemma C1_counterexample :
  let run rows :=
    match _makeGraph_unitVerse (example.builder rows true) [example.taskA] rows with
    | Ok qgraph => Some (example.summary qgraph)
    | Raise _ => None
    end in
  [example.row 1 5 None; example.row 2 5 None]
    ≡ₚ [example.row 2 5 None; example.row 1 5 None] ∧
  run [example.row 1 5 None; example.row 2 5 None]
    = Some [("TaskA", [([Some 101%Z], [None]); ([Some 102%Z], [None])])] ∧
  run [example.row 2 5 None; example.row 1 5 None]
    = Some [("TaskA", [([Some 102%Z], [None]); ([Some 101%Z], [None])])] ∧
  [example.row 1 5 (Some 7%Z); example.row 1 5 None]
    ≡ₚ [example.row 1 5 None; example.row 1 5 (Some 7%Z)] ∧
  run [example.row 1 5 (Some 7%Z); example.row 1 5 None]
    = Some [("TaskA", [([Some 101%Z], [None])])] ∧
  run [example.row 1 5 None; example.row 1 5 (Some 7%Z)]
    = Some [("TaskA", [])].
Proof.
  intros run. split_and!; [apply perm_swap| | |apply perm_swap| |];
    vm_compute; reflexivity.
Qed.

(** * Further properties *)

(** ** [GraphBuilder._makeFullIODatasetTypes]: the returned dataset types *)

Lemma collectNames_values allDatasetTypes names dsTypes n d :
  (collectNames (allDatasetTypes, names) dsTypes).1 !! n = Some d →
  allDatasetTypes !! n = Some d ∨ d ∈ dsTypes.
Proof.
  unfold collectNames. revert allDatasetTypes names.
  induction dsTypes as [|d0 l IH]; intros a ns; simpl; [by left|].
  intros [Hd|Hd]%IH; [|right; by right].
  apply lookup_insert_Some in Hd as [[_ <-]|[_ Hd]]; [right; left|by left].
Qed.

Lemma collectAll_values taskDatasets n d :
  (collectAll taskDatasets).1.1 !! n = Some d →
  ∃ t, t ∈ taskDatasets ∧ d ∈ inputs t ++ outputs t.
Proof.
  unfold collectAll.
  induction taskDatasets as [|t l IH] using rev_ind; simpl.
  - by rewrite lookup_empty.
  - rewrite foldl_app; simpl.
    destruct (foldl _ _ l) as [[a ins] outs]; simpl in *.
    pose proof (collectNames_values a ins (inputs t) n d) as Hin.
    destruct (collectNames (a, ins) (inputs t)) as [a1 ins1]; simpl in *.
    pose proof (collectNames_values a1 outs (outputs t) n d) as Hout.
    destruct (collectNames (a1, outs) (outputs t)) as [a2 outs2]; simpl in *.
    intros [[Hd|Hd]%Hin|Hd]%Hout.
    + destruct (IH Hd) as (t' & ? & ?). exists t'. split; [|done].
      apply elem_of_app. by left.
    + exists t. split; apply elem_of_app; [right; left|by left].
    + exists t. split; apply elem_of_app; [right; left|by right].
Qed.

(** The aggregation returns; the returned types are the entries of a map
    from names to declared dataset types. *)
Lemma makeFullIODatasetTypes_spec taskDatasets :
  ∃ (allDatasetTypes : gmap string DatasetType) ins outs,
    _makeFullIODatasetTypes taskDatasets = Ok (ins, outs) ∧
    keyedByName allDatasetTypes ∧
    dom allDatasetTypes = allInputNames taskDatasets ∪ allOutputNames taskDatasets ∧
    (∀ n d, allDatasetTypes !! n = Some d →
            ∃ t, t ∈ taskDatasets ∧ d ∈ inputs t ++ outputs t) ∧
    (∀ d, d ∈ ins ↔
          ∃ n, n ∈ allInputNames taskDatasets ∖ allOutputNames taskDatasets ∧
               allDatasetTypes !! n = Some d) ∧
    (∀ d, d ∈ outs ↔
          ∃ n, n ∈ allOutputNames taskDatasets ∧ allDatasetTypes !! n = Some d).
Proof.
  unfold _makeFullIODatasetTypes.
  pose proof (collectAll_values taskDatasets) as Hvalues.
  destruct (collectAll_spec taskDatasets) as (a & Heq & Hdom & Hk).
  rewrite Heq in Hvalues |- *; simpl in Hvalues.
  destruct (typesOfNames_spec a
              (allInputNames taskDatasets ∖ allOutputNames taskDatasets))
    as (ins & -> & Hins); [set_solver|].
  destruct (typesOfNames_spec a (allOutputNames taskDatasets))
    as (outs & -> & Houts); [set_solver|].
  by exists a, ins, outs.
Qed.

(** X1. The aggregation returns at most one dataset type per name: two
    returned types, inputs or outputs, with the same name are equal.  Every
    returned type is declared by a task, and every output name of a task is
    the name of a returned output. *)
Theorem X1_one_dataset_type_per_name taskDatasets :
  ∃ ins outs,
    _makeFullIODatasetTypes taskDatasets = Ok (ins, outs) ∧
    (∀ d1 d2, d1 ∈ ins ∪ outs → d2 ∈ ins ∪ outs → name d1 = name d2 → d1 = d2) ∧
    (∀ d, d ∈ ins ∪ outs → ∃ t, t ∈ taskDatasets ∧ d ∈ inputs t ++ outputs t) ∧
    (∀ t o, t ∈ taskDatasets → o ∈ outputs t →
            ∃ o', o' ∈ outs ∧ name o' = name o).
Proof.
  destruct (makeFullIODatasetTypes_spec taskDatasets)
    as (a & ins & outs & Hrun & Hk & Hdom & Hvalues & Hins & Houts).
  exists ins, outs. split; [done|].
  assert (Hentry : ∀ d, d ∈ ins ∪ outs → a !! name d = Some d).
  { intros d [(n & _ & Hd)%Hins|(n & _ & Hd)%Houts]%elem_of_union;
      by rewrite (Hk _ _ Hd). }
  split_and!.
  - intros d1 d2 H1%Hentry H2%Hentry Heq. rewrite Heq in H1. congruence.
  - intros d Hd%Hentry. by eapply Hvalues.
  - intros t o Ht Ho.
    assert (Hn : name o ∈ allOutputNames taskDatasets)
      by (apply elem_of_allOutputNames; by exists t, o).
    assert (is_Some (a !! name o)) as [o' Ho'].
    { apply elem_of_dom. rewrite Hdom. set_solver. }
    exists o'. split; [apply Houts; eauto|by apply Hk in Ho'].
Qed.

(** When a name stands for one dataset type, the result is exact. *)
Lemma makeFullIODatasetTypes_exact taskDatasets :
  namesIdentify taskDatasets →
  ∃ ins outs,
    _makeFullIODatasetTypes taskDatasets = Ok (ins, outs) ∧
    (∀ d, d ∈ outs ↔ ∃ t, t ∈ taskDatasets ∧ d ∈ outputs t) ∧
    (∀ d, d ∈ ins ↔ (∃ t, t ∈ taskDatasets ∧ d ∈ inputs t) ∧
                    ¬ ∃ t, t ∈ taskDatasets ∧ d ∈ outputs t).
Proof.
  intros Hnames.
  destruct (makeFullIODatasetTypes_spec taskDatasets)
    as (a & ins & outs & Hrun & Hk & Hdom & Hvalues & Hins & Houts).
  exists ins, outs. split; [done|].
  assert (Hdeclared : ∀ t d, t ∈ taskDatasets → d ∈ inputs t ++ outputs t →
                             a !! name d = Some d).
  { intros t d Ht Hd.
    assert (is_Some (a !! name d)) as [d' Hd'].
    { apply elem_of_dom. rewrite Hdom.
      apply elem_of_app in Hd as [Hd|Hd]; apply elem_of_union; [left|right].
      - apply elem_of_allInputNames. by exists t, d.
      - apply elem_of_allOutputNames. by exists t, d. }
    destruct (Hvalues _ _ Hd') as (t' & Ht' & Hin').
    rewrite Hd'. f_equal.
    apply (Hnames t' t d' d Ht' Ht Hin' Hd). by apply Hk in Hd'. }
  split.
  - intros d. rewrite Houts. split.
    + intros (n & (t & o & Ht & Ho & <-)%elem_of_allOutputNames & Hd).
      exists t. split; [done|].
      rewrite (Hdeclared t o Ht) in Hd by (apply elem_of_app; by right).
      by injection Hd as <-.
    + intros (t & Ht & Ho). exists (name d). split.
      * apply elem_of_allOutputNames. by exists t, d.
      * apply (Hdeclared t); [done|]. apply elem_of_app. by right.
  - intros d. rewrite Hins. split.
    + intros (n & [(t & i & Ht & Hi & <-)%elem_of_allInputNames Hnot]%elem_of_difference & Hd).
      rewrite (Hdeclared t i Ht) in Hd by (apply elem_of_app; by left).
      injection Hd as <-. split; [by exists t|].
      intros (t' & Ht' & Ho). apply Hnot, elem_of_allOutputNames. by exists t', i.
    + intros [(t & Ht & Hi) Hnot]. exists (name d). split.
      * apply elem_of_difference. split.
        -- apply elem_of_allInputNames. by exists t, d.
        -- intros (t' & o & Ht' & Ho & Heq)%elem_of_allOutputNames.
           apply Hnot. exists t'. split; [done|].
           rewrite <-(Hnames t' t o d Ht' Ht); [done| | |done];
             apply elem_of_app; [by right|by left].
      * apply (Hdeclared t); [done|]. apply elem_of_app. by left.
Qed.

(** X2. In a pipeline where a name stands for one dataset type, the
    returned outputs are exactly the dataset types that some task writes,
    and the returned inputs are exactly those that some task reads and no
    task writes. *)
Theorem X2_exact_inputs_and_outputs taskDatasets :
  namesIdentify taskDatasets →
  ∃ ins outs,
    _makeFullIODatasetTypes taskDatasets = Ok (ins, outs) ∧
    (∀ d, d ∈ outs ↔ ∃ t, t ∈ taskDatasets ∧ d ∈ outputs t) ∧
    (∀ d, d ∈ ins ↔ (∃ t, t ∈ taskDatasets ∧ d ∈ inputs t) ∧
                    ¬ ∃ t, t ∈ taskDatasets ∧ d ∈ outputs t).
Proof. apply makeFullIODatasetTypes_exact. Qed.

(** X3. In a pipeline where a name stands for one dataset type, the order
    of the tasks does not change the aggregated inputs and outputs. *)
Theorem X3_aggregation_ignores_task_order taskDatasets taskDatasets' :
  taskDatasets ≡ₚ taskDatasets' →
  namesIdentify taskDatasets →
  _makeFullIODatasetTypes taskDatasets = _makeFullIODatasetTypes taskDatasets'.
Proof.
  intros Hperm Hnames.
  assert (Hnames' : namesIdentify taskDatasets').
  { intros t1 t2 d1 d2 H1 H2. rewrite <-Hperm in H1, H2. by apply Hnames. }
  destruct (makeFullIODatasetTypes_exact _ Hnames) as (ins & outs & -> & Ho & Hi).
  destruct (makeFullIODatasetTypes_exact _ Hnames')
    as (ins' & outs' & -> & Ho' & Hi').
  assert (ins = ins') as ->.
  { apply set_eq. intros d. rewrite Hi, Hi'. by setoid_rewrite Hperm. }
  assert (outs = outs') as ->; [|done].
  apply set_eq. intros d. rewrite Ho, Ho'. by setoid_rewrite Hperm.
Qed.

Lemma example_names_identify taskDatasets :
  Forall (λ t, Forall (λ d, d ∈ [example.raw; example.calibrated; example.coadd])
                      (inputs t ++ outputs t)) taskDatasets →
  namesIdentify taskDatasets.
Proof.
  intros Hall t1 t2 d1 d2 Ht1 Ht2 Hd1 Hd2.
  apply (proj1 (Forall_forall _ _) Hall) in Ht1, Ht2.
  apply (proj1 (Forall_forall _ _) Ht1) in Hd1.
  apply (proj1 (Forall_forall _ _) Ht2) in Hd2.
  repeat (apply elem_of_cons in Hd1 as [->|Hd1]);
    repeat (apply elem_of_cons in Hd2 as [->|Hd2]);
    try (by apply elem_of_nil in Hd1); try (by apply elem_of_nil in Hd2);
    done.
Qed.

Lemma example_pipeline_names :
  namesIdentify [example.taskA; example.taskB].
Proof.
  apply example_names_identify.
  repeat constructor; set_solver.
Qed.

(** [TaskA] reads [raw] and writes [calibrated], which [TaskB] reads. *)
Lemma X2_exact_inputs_and_outputs_witness :
  ∃ ins outs,
    _makeFullIODatasetTypes [example.taskA; example.taskB] = Ok (ins, outs) ∧
    example.raw ∈ ins ∧ example.calibrated ∉ ins ∧
    example.calibrated ∈ outs ∧ example.coadd ∈ outs.
Proof.
  destruct (X2_exact_inputs_and_outputs [example.taskA; example.taskB]
              example_pipeline_names) as (ins & outs & Hrun & Houts & Hins).
  exists ins, outs. split_and!.
  - exact Hrun.
  - apply Hins. split.
    + exists example.taskA. split; [left|left].
    + intros (t & Ht & Ho).
      apply elem_of_cons in Ht as [->|Ht];
        [|apply list_elem_of_singleton in Ht as ->];
        apply list_elem_of_singleton in Ho; discriminate Ho.
  - intros [_ Hnot]%Hins. apply Hnot. exists example.taskA. split; left.
  - apply Houts. exists example.taskA. split; left.
  - apply Houts. exists example.taskB. split; [right; left|left].
Defined.

Lemma X3_aggregation_ignores_task_order_witness :
  _makeFullIODatasetTypes [example.taskA; example.taskB]
    = _makeFullIODatasetTypes [example.taskB; example.taskA].
Proof.
  apply X3_aggregation_ignores_task_order.
  - apply perm_swap.
  - exact example_pipeline_names.
Defined.

(** ** [GraphBuilder._loadTaskClass]: resolving twice *)

(** X4. Resolving the definition that a resolution returned changes
    nothing: it returns the same reference and the same heap, whatever the
    factory would answer. *)
Theorem X4_loadTaskClass_idempotent self self' (h h' : heap.t) taskDef taskDef' :
  _loadTaskClass self h taskDef = Ok (taskDef', h') →
  _loadTaskClass self' h' taskDef' = Ok (taskDef', h').
Proof.
  unfold _loadTaskClass.
  destruct (taskClass (heap.deref h taskDef)) as [c|] eqn:Hclass.
  - intros [= <- <-]. by rewrite Hclass.
  - destruct (loadTaskClass _ _) as [[tClass tName]|]; simpl; [|done].
    intros [= <- <-].
    unfold heap.set_taskName, heap.set_taskClass, heap.deref.
    by rewrite !lookup_total_insert_eq.
Qed.

Lemma X4_loadTaskClass_idempotent_witness :
  let td := mkTaskDef "TaskA" example.perDetector None "a" in
  let self := example.builder [] true in
  let failing := mkGraphBuilder (mkTaskFactory (λ _, Raise (TaskFactoryError "gone")))
                                (example.registryOf []) ∅ true in
  ∃ taskDef' h',
    _loadTaskClass self {[ 1%positive := td ]} 1%positive = Ok (taskDef', h') ∧
    _loadTaskClass failing h' taskDef' = Ok (taskDef', h').
Proof.
  intros td self failing.
  assert (Hrun : ∃ taskDef' h',
            _loadTaskClass self {[ 1%positive := td ]} 1%positive
              = Ok (taskDef', h')) by (do 2 eexists; reflexivity).
  destruct Hrun as (taskDef' & h' & Hrun).
  exists taskDef', h'. split; [exact Hrun|].
  exact (X4_loadTaskClass_idempotent self failing _ _ _ _ Hrun).
Defined.

(** ** The keys of the grouping *)

#[local] Instance item_le_total : Total item_le.
Proof. intros x y. apply String.leb_total. Qed.

(** X5. The key of a reference is its data id as a list of items sorted by
    column: it holds exactly the items of the data id, each column once, so
    two references have the same key exactly when their data ids are
    equal. *)
Theorem X5_dataRefKey_canonical ref1 ref2 :
  (_dataRefKey ref1 = _dataRefKey ref2 ↔ dataId ref1 = dataId ref2) ∧
  Sorted item_le (_dataRefKey ref1) ∧
  NoDup (_dataRefKey ref1).*1 ∧
  ∀ col v, (col, v) ∈ _dataRefKey ref1 ↔ dataId ref1 !! col = Some v.
Proof.
  split_and!.
  - apply dataRefKey_inj.
  - apply (Sorted_merge_sort item_le).
  - unfold _dataRefKey. rewrite merge_sort_Permutation.
    apply NoDup_fst_map_to_list.
  - intros col v. unfold _dataRefKey. rewrite merge_sort_Permutation.
    apply elem_of_map_to_list.
Qed.

Lemma quantumKey_cons col qlinks row :
  quantumKey (col :: qlinks) row =
  v ← getitem (row_dataId row) col;
  qkey ← quantumKey qlinks row;
  Ok ((col, v) :: qkey).
Proof.
  unfold quantumKey; simpl.
  by destruct (getitem (row_dataId row) col).
Qed.

Lemma quantumKey_succeeds qlinks row :
  succeeds (quantumKey qlinks row) ↔
  ∀ col, col ∈ qlinks → is_Some (row_dataId row !! col).
Proof.
  induction qlinks as [|col l IH].
  - split; [by intros _ ? ?%elem_of_nil|by eexists].
  - rewrite quantumKey_cons. split.
    + intros [k (v & Hv%getitem_Ok & (k' & Hk' & _)%bind_Ok)%bind_Ok] col'
        [->|Hin]%elem_of_cons; [by rewrite Hv|].
      apply IH; [by eexists|done].
    + intros Hall. destruct (Hall col) as [v Hv]; [left|].
      apply getitem_Ok in Hv. rewrite Hv; simpl.
      destruct (proj2 IH) as [k ->]; [|by eexists].
      intros ??. apply Hall. by right.
Qed.

(** X6. The quantum key of a row lists the link columns in their order,
    each with the value of the row; another row has the same key exactly
    when it has the same values in the link columns. *)
Theorem X6_quantumKey_groups_by_link_columns qlinks row1 row2 qkey :
  quantumKey qlinks row1 = Ok qkey →
  qkey.*1 = qlinks ∧
  (∀ col v, (col, v) ∈ qkey → row_dataId row1 !! col = Some v) ∧
  (quantumKey qlinks row2 = Ok qkey ↔
   ∀ col, col ∈ qlinks → row_dataId row2 !! col = row_dataId row1 !! col).
Proof.
  revert qkey. induction qlinks as [|col l IH]; intros k.
  - intros [= <-]. split_and!; [done|by intros ?? ?%elem_of_nil|].
    split; [by intros _ ? ?%elem_of_nil|done].
  - rewrite !quantumKey_cons.
    intros (v & Hv%getitem_Ok & (k' & Hk' & [= <-])%bind_Ok)%bind_Ok.
    destruct (IH _ Hk') as (Hfst & Hvals & Hsame).
    split_and!.
    + rewrite fmap_cons, Hfst. done.
    + intros col' v' [Heq|Hin]%elem_of_cons; [|eauto].
      by injection Heq as -> ->.
    + split.
      * intros (v2 & Hv2%getitem_Ok & (k2 & Hk2 & [= -> ->])%bind_Ok)%bind_Ok
          col' [->|Hin]%elem_of_cons; [congruence|].
        by apply Hsame.
      * intros Hall.
        assert (Hv2 : getitem (row_dataId row2) col = Ok v).
        { apply getitem_Ok. rewrite Hall by left. done. }
        rewrite Hv2; simpl.
        rewrite (proj2 Hsame); [done|]. intros ??. apply Hall. by right.
Qed.

Lemma X6_quantumKey_groups_by_link_columns_witness :
  quantumKey ["detector"] (example.row 1 5 None)
    = quantumKey ["detector"] (example.row 1 6 (Some 7%Z)) ∧
  quantumKey ["detector"] (example.row 2 5 None)
    ≠ Ok [("detector", VInt 1)].
Proof.
  destruct (X6_quantumKey_groups_by_link_columns ["detector"]
              (example.row 1 5 None) (example.row 1 6 (Some 7%Z))
              [("detector", VInt 1)] eq_refl) as (_ & _ & Hsame).
  destruct (X6_quantumKey_groups_by_link_columns ["detector"]
              (example.row 1 5 None) (example.row 2 5 None)
              [("detector", VInt 1)] eq_refl) as (_ & _ & Hother).
  split.
  - rewrite (proj2 Hsame); [reflexivity|].
    intros col ->%list_elem_of_singleton. reflexivity.
  - intros Hkey. pose proof (proj1 Hother Hkey "detector") as Heq.
    specialize (Heq ltac:(left)). vm_compute in Heq. discriminate Heq.
Defined.

Lemma quantumLinks_loop (schema : gmap string DataUnit) us acc :
  match foldM (λ qlinks dataUnitName,
                 dataUnit ← getitem schema dataUnitName;
                 Ok (qlinks ++ link dataUnit)) acc us with
  | Ok qlinks =>
      ∃ dataUnits',
        Forall2 (λ dataUnitName dataUnit, schema !! dataUnitName = Some dataUnit)
                us dataUnits' ∧
        qlinks = acc ++ concat (link <$> dataUnits')
  | Raise e =>
      e = KeyError ∧ ∃ dataUnitName, dataUnitName ∈ us ∧ schema !! dataUnitName = None
  end.
Proof.
  revert acc. induction us as [|u us IH]; intros acc; simpl.
  - exists []. split; [constructor|by rewrite app_nil_r].
  - destruct (schema !! u) as [du|] eqn:Hu.
    + rewrite (proj2 (getitem_Ok schema u du) Hu); simpl.
      specialize (IH (acc ++ link du)).
      destruct (foldM _ (acc ++ link du) us) as [ql|e].
      * destruct IH as (dus & Hdus & ->). exists (du :: dus).
        split; [by constructor|]. simpl. by rewrite app_assoc.
      * destruct IH as (-> & u' & ? & ?). split; [done|].
        exists u'. split; [by right|done].
    + assert (getitem schema u = Raise KeyError) as ->
        by (unfold getitem; by rewrite Hu).
      simpl. split; [done|]. exists u. split; [left|done].
Qed.

(** X7. The link columns of a task are the links of its quantum units,
    concatenated in the order of the units, a column that two units share
    coming twice; they are computed exactly when every unit is known to the
    schema, and otherwise the lookup raises [KeyError]. *)
Theorem X7_quantumLinks_concatenates self taskDss :
  (∀ qlinks,
     quantumLinks self taskDss = Ok qlinks ↔
     ∃ dataUnits',
       Forall2 (λ dataUnitName dataUnit,
                  dataUnits self !! dataUnitName = Some dataUnit)
               (units (quantum (config (taskDef taskDss)))) dataUnits' ∧
       qlinks = concat (link <$> dataUnits')) ∧
  (∀ e, quantumLinks self taskDss = Raise e →
        e = KeyError ∧
        ∃ dataUnitName,
          dataUnitName ∈ units (quantum (config (taskDef taskDss))) ∧
          dataUnits self !! dataUnitName = None).
Proof.
  unfold quantumLinks.
  pose proof (quantumLinks_loop (dataUnits self)
                (units (quantum (config (taskDef taskDss)))) []) as Hloop.
  destruct (foldM _ [] _) as [ql|e]; split.
  - intros ql'. destruct Hloop as (dus & Hdus & ->). split.
    + intros [= <-]. by exists dus.
    + intros (dus' & Hdus' & ->).
      assert (dus' = dus) as ->; [|done].
      clear -Hdus Hdus'. revert dus' Hdus'.
      induction Hdus as [|u du us dus Hu _ IH]; intros dus' Hdus'.
      * by apply Forall2_nil_inv_l in Hdus'.
      * apply Forall2_cons_inv_l in Hdus' as (du' & dus'' & Hu' & Hrest & ->).
        f_equal; [congruence|by apply IH].
  - done.
  - intros ql'. split; [done|].
    intros (dus' & Hdus' & _). destruct Hloop as (_ & u & [i Hi]%list_elem_of_lookup & Hnone).
    destruct (Forall2_lookup_l _ _ _ _ _ Hdus' Hi) as (du & _ & Hsome).
    congruence.
  - by intros e' [= <-].
Qed.

(** ** [GraphBuilder._makeGraph]: exceptions and the loop over the tasks *)

Lemma foldM_Raise_inv {E A B} (body : B → A → result E B) xs acc e :
  foldM body acc xs = Raise e → ∃ x acc', x ∈ xs ∧ body acc' x = Raise e.
Proof.
  revert acc. induction xs as [|x xs IH]; intros acc; simpl; [done|].
  intros [Hx|(acc' & _ & (x' & acc'' & ? & ?)%IH)]%bind_Raise.
  - exists x, acc. split; [left|done].
  - exists x', acc''. split; [by right|done].
Qed.

Lemma quantumLinks_KeyError self taskDss e :
  quantumLinks self taskDss = Raise e → e = KeyError.
Proof.
  intros (u & acc & _ & Hu)%foldM_Raise_inv.
  apply bind_Raise in Hu as [Hu|(du & _ & ?)]; [|done].
  by apply getitem_KeyError in Hu.
Qed.

(** What the body of the loop over the tasks can raise. *)
Lemma makeNodes_Raise_inv self unitVerse taskDss e :
  makeNodes self unitVerse taskDss = Raise e →
  e = KeyError ∨
  ∃ refs, e = OutputExistsError (taskName (taskDef taskDss)) refs ∧
          ∃ ref, ref ∈ refs ∧ id ref ≠ None.
Proof.
  unfold makeNodes.
  intros [Hl|(ql & Hql & Hrest)]%bind_Raise;
    [left; by eapply quantumLinks_KeyError|].
  apply bind_Raise in Hrest as [Hg|([tqi tqo] & Hrows & Hrest)];
    [left; by eapply groupRows_KeyError|].
  apply bind_Raise in Hrest as [Hq|(qs & _ & ?)]; [|done].
  apply foldM_Raise_inv in Hq as (k & acc & Hk & Hbody).
  unfold addQuantum in Hbody.
  apply bind_Raise in Hbody as [Hraise|(o & _ & ?)]; [|done].
  destruct (makeQuantum_decide_key self taskDss unitVerse ql tqi tqo Hrows k Hk)
    as (qi & qo & _ & _ & Hdec).
  rewrite Hdec in Hraise. apply decideQuantum_Raise in Hraise as [-> Hex].
  right. by exists (chainValues qo).
Qed.

Lemma makeGraph_unitVerse_Raise_inv self taskDatasets unitVerse e :
  _makeGraph_unitVerse self taskDatasets unitVerse = Raise e →
  ∃ taskDss, taskDss ∈ taskDatasets ∧ makeNodes self unitVerse taskDss = Raise e.
Proof.
  intros (t & acc & Ht & Hbody)%foldM_Raise_inv.
  apply bind_Raise in Hbody as [?|(n & _ & ?)]; [|done]. by exists t.
Qed.

(** X8. Every exception of [_makeGraph] is one of four: the
    [UserExpressionError] of a query that the parser rejects, with the
    query and the parser's message; the exception of the registry, as it
    is; a [KeyError]; or the [OutputExistsError] of a task of the pipeline,
    with references of which one exists already. *)
Theorem X8_makeGraph_exceptions {Node : Type}
    (parse : string → result string (option Node)) (str : Node → string)
    self taskDatasets ins outs originInfo userQuery e :
  _makeGraph parse str self taskDatasets ins outs originInfo userQuery = Raise e →
  (∃ exc, parse (default "" userQuery) = Raise exc ∧
          e = UserExpressionError (default "" userQuery) exc) ∨
  (∃ parsedQuery,
     parse (default "" userQuery) = Ok parsedQuery ∧
     selectDataUnits (registry self) originInfo (str <$> parsedQuery) ins outs
       = Raise e) ∨
  e = KeyError ∨
  (∃ taskDss refs,
     taskDss ∈ taskDatasets ∧
     e = OutputExistsError (taskName (taskDef taskDss)) refs ∧
     ∃ ref, ref ∈ refs ∧ id ref ≠ None).
Proof.
  unfold _makeGraph, _parseUserQuery.
  destruct (parse (default "" userQuery)) as [pq|exc] eqn:Hparse; simpl.
  - destruct (selectDataUnits _ _ _ _ _) as [rows|e0] eqn:Hrows; simpl.
    + rewrite foldl_append_all.
      intros (t & Ht & [->|(refs & -> & Hex)]%makeNodes_Raise_inv)
        %makeGraph_unitVerse_Raise_inv.
      * right; right; by left.
      * right; right; right. by exists t, refs.
    + intros [= <-]. right; left. by exists pq.
  - intros [= <-]. left. by exists exc.
Qed.

(** A query that the parser rejects, and outputs that exist in part. *)
Lemma X8_makeGraph_exceptions_witness :
  let rows := [example.row 1 5 (Some 7%Z); example.row 2 5 None] in
  _makeGraph (λ _, Raise "unbalanced") (λ tree : string, tree)
             (example.builder rows true) [example.taskC] ∅ ∅ "origin" (Some "(")
    = Raise (UserExpressionError "(" "unbalanced") ∧
  ∃ refs,
    _makeGraph example.parse (λ tree, tree) (example.builder rows true)
               [example.taskC] ∅ ∅ "origin" None
      = Raise (OutputExistsError "TaskC" refs).
Proof.
  intros rows. split.
  - destruct (X8_makeGraph_exceptions (λ _, Raise "unbalanced")
                (λ tree : string, tree) (example.builder rows true)
                [example.taskC] ∅ ∅ "origin" (Some "(")
                (UserExpressionError "(" "unbalanced") eq_refl)
      as [(exc & _ & _)|[(pq & Hpq & _)|[?|(t & refs & _ & ? & _)]]];
      [reflexivity|discriminate Hpq|done..].
  - assert (Hrun : ∃ e,
              _makeGraph example.parse (λ tree, tree) (example.builder rows true)
                         [example.taskC] ∅ ∅ "origin" None = Raise e)
      by (eexists; reflexivity).
    destruct Hrun as [e Hrun]. rewrite Hrun.
    destruct (X8_makeGraph_exceptions _ _ _ _ _ _ _ _ _ Hrun)
      as [(exc & Hexc & _)|[(pq & _ & Hsel)|[->|(t & refs & Ht & -> & _)]]].
    + discriminate Hexc.
    + discriminate Hsel.
    + vm_compute in Hrun. discriminate Hrun.
    + apply list_elem_of_singleton in Ht as ->. by exists refs.
Defined.

Lemma makeGraph_unitVerse_acc self unitVerse taskDatasets acc :
  foldM (λ qgraph taskDss,
           nodes ← makeNodes self unitVerse taskDss;
           Ok (qgraph ++ [nodes]))
        acc taskDatasets
  = qgraph ← _makeGraph_unitVerse self taskDatasets unitVerse;
    Ok (acc ++ qgraph).
Proof.
  unfold _makeGraph_unitVerse. revert acc.
  induction taskDatasets as [|t l IH] using rev_ind; intros acc; simpl.
  - by rewrite app_nil_r.
  - rewrite !foldM_snoc, IH.
    destruct (foldM _ [] l) as [g|]; simpl; [|done].
    destruct (makeNodes self unitVerse t); simpl; [|done].
    by rewrite app_assoc.
Qed.

(** X9. The tasks are processed independently of one another: the graph
    of two pipelines in a row is the graph of the first followed by the
    graph of the second, and the exception of the first, or else of the
    second, when one of them raises. *)
Theorem X9_graph_of_concatenated_pipelines self taskDatasets1 taskDatasets2 unitVerse :
  _makeGraph_unitVerse self (taskDatasets1 ++ taskDatasets2) unitVerse
  = qgraph1 ← _makeGraph_unitVerse self taskDatasets1 unitVerse;
    qgraph2 ← _makeGraph_unitVerse self taskDatasets2 unitVerse;
    Ok (qgraph1 ++ qgraph2).
Proof.
  unfold _makeGraph_unitVerse at 1. rewrite foldM_app.
  fold (_makeGraph_unitVerse self taskDatasets1 unitVerse).
  destruct (_makeGraph_unitVerse self taskDatasets1 unitVerse); simpl; [|done].
  apply makeGraph_unitVerse_acc.
Qed.

(** X10. The build stops at the first task that raises: when the tasks
    before it have their nodes, the exception of that task is the
    exception of the build, whatever tasks follow. *)
Theorem X10_first_failing_task_aborts
    self taskDatasets1 taskDss taskDatasets2 unitVerse qgraph1 e :
  _makeGraph_unitVerse self taskDatasets1 unitVerse = Ok qgraph1 →
  makeNodes self unitVerse taskDss = Raise e →
  _makeGraph_unitVerse self (taskDatasets1 ++ taskDss :: taskDatasets2) unitVerse
    = Raise e.
Proof.
  intros H1 Ht. unfold _makeGraph_unitVerse in *.
  rewrite foldM_app, H1; simpl. by rewrite Ht.
Qed.

Lemma X10_first_failing_task_aborts_witness :
  let rows := [example.row 1 5 (Some 7%Z); example.row 2 5 None] in
  ∃ refs,
    _makeGraph_unitVerse (example.builder rows true)
                         [example.taskB; example.taskC; example.taskD] rows
      = Raise (OutputExistsError "TaskC" refs).
Proof.
  intros rows.
  assert (Hrun : ∃ qgraph1 refs,
            _makeGraph_unitVerse (example.builder rows true) [example.taskB] rows
              = Ok qgraph1 ∧
            makeNodes (example.builder rows true) rows example.taskC
              = Raise (OutputExistsError "TaskC" refs))
    by (do 2 eexists; split; reflexivity).
  destruct Hrun as (qgraph1 & refs & Hfirst & Hfail).
  exists refs.
  exact (X10_first_failing_task_aborts _ [example.taskB] example.taskC
           [example.taskD] rows qgraph1 _ Hfirst Hfail).
Defined.

(** ** [GraphBuilder._makeGraph]: the quanta of a returned graph *)

Lemma makeGraph_unitVerse_node self taskDatasets unitVerse qgraph nodes :
  _makeGraph_unitVerse self taskDatasets unitVerse = Ok qgraph →
  nodes ∈ qgraph →
  ∃ taskDss, taskDss ∈ taskDatasets ∧ makeNodes self unitVerse taskDss = Ok nodes.
Proof.
  intros Hgraph%makeGraph_unitVerse_nodes [i Hi]%list_elem_of_lookup.
  destruct (Forall2_lookup_r _ _ _ _ _ Hgraph Hi) as (t & Ht & Hmake).
  exists t. split; [by eapply list_elem_of_lookup_2|done].
Qed.

(** A quantum of a node, with the key it was made for. *)
Lemma makeNodes_quantum_made self taskDss unitVerse qlinks tqi tqo nodes q :
  quantumLinks self taskDss = Ok qlinks →
  groupRows taskDss qlinks unitVerse = Ok (tqi, tqo) →
  makeNodes self unitVerse taskDss = Ok nodes → q ∈ quanta nodes →
  ∃ qkey qinputs qoutputs,
    qkey ∈ dict.keys tqi ∧
    dict.get tqi qkey = Some qinputs ∧ dict.get tqo qkey = Some qoutputs ∧
    decideQuantum (skipExisting self) (taskName (taskDef taskDss))
                  (chainValues qinputs) (chainValues qoutputs) = Ok (Some q).
Proof.
  intros Hlinks Hrows. rewrite (makeNodes_unfold _ _ _ _ _ _ Hlinks Hrows).
  intros (qs & (made & Hmade & ->)%makeQuanta_Ok & [= <-])%bind_Ok; simpl.
  intros (o & Ho & ->)%list_elem_of_omap.
  apply list_elem_of_lookup in Ho as [i Hi].
  destruct (Forall2_lookup_r _ _ _ _ _ Hmade Hi) as (k & Hk & Hq).
  apply list_elem_of_lookup_2 in Hk.
  destruct (makeQuantum_decide_key self _ _ _ _ _ Hrows k Hk)
    as (qi & qo & Hgi & Hgo & Hdec).
  rewrite Hdec in Hq. by exists k, qi, qo.
Qed.

(** X11. No output reference of a quantum of a returned graph exists
    already; and with [skipExisting] every quantum of the graph has at
    least one output reference. *)
Theorem X11_outputs_of_quanta_are_new
    self taskDatasets unitVerse qgraph nodes q :
  _makeGraph_unitVerse self taskDatasets unitVerse = Ok qgraph →
  nodes ∈ qgraph → q ∈ quanta nodes →
  (∀ ref, ref ∈ butler.outputs q → id ref = None) ∧
  (skipExisting self = true → butler.outputs q ≠ []).
Proof.
  intros Hgraph Hnodes Hq.
  destruct (makeGraph_unitVerse_node _ _ _ _ _ Hgraph Hnodes) as (t & _ & Hmake).
  destruct (makeNodes_Ok _ _ _ _ Hmake) as (ql & tqi & tqo & Hlinks & Hrows).
  destruct (makeNodes_quantum_made _ _ _ _ _ _ _ _ Hlinks Hrows Hmake Hq)
    as (k & qi & qo & _ & _ & _ & Hdec).
  split.
  - by apply decideQuantum_Some in Hdec as [-> Hnew].
  - intros Hskip. unfold decideQuantum in Hdec. rewrite Hskip in Hdec.
    destruct (chainValues qo) as [|r l] eqn:Hqo; [done|]. simpl in Hdec.
    destruct (exists_ r && forallb exists_ l); [done|].
    destruct (exists_ r || existsb exists_ l); [done|].
    by injection Hdec as <-.
Qed.

Lemma X11_outputs_of_quanta_are_new_witness :
  let rows := [example.row 1 5 (Some 7%Z); example.row 2 5 None] in
  ∃ qgraph,
    _makeGraph_unitVerse (example.builder rows true)
                         [example.taskA; example.taskB] rows = Ok qgraph ∧
    ∀ nodes q, nodes ∈ qgraph → q ∈ quanta nodes →
      (∀ ref, ref ∈ butler.outputs q → id ref = None) ∧ butler.outputs q ≠ [].
Proof.
  intros rows.
  assert (Hrun : ∃ qgraph,
            _makeGraph_unitVerse (example.builder rows true)
                                 [example.taskA; example.taskB] rows = Ok qgraph)
    by (eexists; reflexivity).
  destruct Hrun as [qgraph Hrun]. exists qgraph. split; [exact Hrun|].
  intros nodes q Hnodes Hq.
  destruct (X11_outputs_of_quanta_are_new _ _ _ _ _ _ Hrun Hnodes Hq)
    as [Hnew Hsome].
  split; [exact Hnew|exact (Hsome eq_refl)].
Defined.

(** The references of a quantum key come from the rows of the key. *)
Lemma chainValues_origin qlinks cs rows (tq : TaskQuanta) k q ref :
  grouped qlinks cs rows tq → dict.get tq k = Some q →
  ref ∈ chainValues q →
  ∃ c row, c ∈ cs ∧ row ∈ rows ∧ quantumKey qlinks row = Ok k ∧
           row_datasetRefs row !! c = Some ref.
Proof.
  intros (_ & _ & Hq) Hget.
  destruct (Hq _ _ Hget) as (Hnd & Hkeys & Hb).
  unfold chainValues. rewrite elem_of_concat.
  intros (refs & Href & (b & -> & [c Hcb]%elem_of_values)%list_elem_of_fmap).
  apply elem_of_values in Href as [rk Hrk].
  apply elem_of_get in Hcb as Hgc; [|done].
  destruct (Hb _ _ Hgc) as (_ & Horig & _).
  destruct (Horig _ _ Hrk) as (_ & row & ? & ? & ?).
  exists c, row. split_and!; [|done..].
  apply Hkeys, elem_of_keys. by exists b.
Qed.

(** X12. Every reference of a quantum of a returned graph was read from a
    row: the quantum belongs to a task of the pipeline and to one quantum
    key, each of its input references is the reference that a row of that
    key holds for an input dataset type of the task, and each of its
    output references the one that such a row holds for an output dataset
    type. *)
Theorem X12_references_come_from_rows
    self taskDatasets unitVerse qgraph nodes q :
  _makeGraph_unitVerse self taskDatasets unitVerse = Ok qgraph →
  nodes ∈ qgraph → q ∈ quanta nodes →
  ∃ taskDss qlinks qkey,
    taskDss ∈ taskDatasets ∧ node_taskDef nodes = taskDef taskDss ∧
    quantumLinks self taskDss = Ok qlinks ∧
    (∀ ref, ref ∈ butler.predictedInputs q →
       ∃ c row, c ∈ inputs taskDss ∧ row ∈ unitVerse ∧
                quantumKey qlinks row = Ok qkey ∧
                row_datasetRefs row !! c = Some ref) ∧
    (∀ ref, ref ∈ butler.outputs q →
       ∃ c row, c ∈ outputs taskDss ∧ row ∈ unitVerse ∧
                quantumKey qlinks row = Ok qkey ∧
                row_datasetRefs row !! c = Some ref).
Proof.
  intros Hgraph Hnodes Hq.
  destruct (makeGraph_unitVerse_node _ _ _ _ _ Hgraph Hnodes) as (t & Ht & Hmake).
  destruct (makeNodes_Ok _ _ _ _ Hmake) as (ql & tqi & tqo & Hlinks & Hrows).
  destruct (makeNodes_quantum_made _ _ _ _ _ _ _ _ Hlinks Hrows Hmake Hq)
    as (k & qi & qo & _ & Hgi & Hgo & [-> _]%decideQuantum_Some).
  destruct (groupRows_spec _ _ _ _ _ Hrows) as (Hi & Ho & _).
  exists t, ql, k. split_and!; [done|by eapply makeNodes_taskDef|done|..]; simpl.
  - intros ref. by eapply chainValues_origin.
  - intros ref. by eapply chainValues_origin.
Qed.

Lemma X12_references_come_from_rows_witness :
  let rows := [example.row 1 5 None; example.row 2 5 None] in
  ∃ qgraph,
    _makeGraph_unitVerse (example.builder rows true) [example.taskB] rows
      = Ok qgraph ∧
    ∀ nodes q ref, nodes ∈ qgraph → q ∈ quanta nodes →
      ref ∈ butler.predictedInputs q →
      ∃ row, row ∈ rows ∧
             row_datasetRefs row !! example.calibrated = Some ref.
Proof.
  intros rows.
  assert (Hrun : ∃ qgraph,
            _makeGraph_unitVerse (example.builder rows true) [example.taskB] rows
              = Ok qgraph) by (eexists; reflexivity).
  destruct Hrun as [qgraph Hrun]. exists qgraph. split; [exact Hrun|].
  intros nodes q ref Hnodes Hq Href.
  destruct (X12_references_come_from_rows _ _ _ _ _ _ Hrun Hnodes Hq)
    as (t & ql & k & Ht & _ & _ & Hins & _).
  apply list_elem_of_singleton in Ht as ->.
  destruct (Hins ref Href) as (c & row & Hc & Hrow & _ & Hget).
  apply list_elem_of_singleton in Hc as ->.
  exists row. split; [exact Hrow|exact Hget].
Defined.

Lemma length_omap_le {A B} (f : A → option B) (l : list A) :
  length (omap f l) ≤ length l.
Proof. induction l as [|x l IH]; csimpl; [done|]. destruct (f x); simpl; lia. Qed.

Lemma length_omap_all {A B} (f : A → option B) (l : list A) :
  (∀ x, x ∈ l → is_Some (f x)) → length (omap f l) = length l.
Proof.
  induction l as [|x l IH]; intros Hall; csimpl; [done|].
  destruct (Hall x) as [y ->]; [left|]. simpl. rewrite IH; [done|].
  intros ??. apply Hall. by right.
Qed.

Lemma length_firstOccurrences {A} `{EqDecision A} (l : list A) :
  length (firstOccurrences l) ≤ length l.
Proof.
  induction l as [|x l IH] using rev_ind; [done|].
  rewrite firstOccurrences_snoc, length_app. simpl.
  case_decide; [lia|]. rewrite length_app; simpl. lia.
Qed.

(** Without [skipExisting] the loop body makes a quantum or raises. *)
Lemma decideQuantum_keep taskName ins outs o :
  decideQuantum false taskName ins outs = Ok o → is_Some o.
Proof.
  unfold decideQuantum; simpl. destruct (existsb _ _); [done|].
  intros [= <-]. by eexists.
Qed.

(** X13. A node of a returned graph has at most one quantum per distinct
    quantum key of the rows, hence no more quanta than there are rows;
    without [skipExisting] it has exactly one quantum per distinct key. *)
Theorem X13_number_of_quanta self taskDatasets unitVerse qgraph :
  _makeGraph_unitVerse self taskDatasets unitVerse = Ok qgraph →
  Forall2 (λ taskDss nodes,
             ∃ qlinks qkeys,
               quantumLinks self taskDss = Ok qlinks ∧
               forM (quantumKey qlinks) unitVerse = Ok qkeys ∧
               length (quanta nodes) ≤ length (firstOccurrences qkeys) ∧
               length (firstOccurrences qkeys) ≤ length unitVerse ∧
               (skipExisting self = false →
                  length (quanta nodes) = length (firstOccurrences qkeys)))
          taskDatasets qgraph.
Proof.
  intros Hgraph%makeGraph_unitVerse_nodes.
  eapply Forall2_impl; [done|]. intros t n Hmake; simpl in Hmake |- *.
  destruct (makeNodes_order _ _ _ _ Hmake)
    as (ql & tqi & tqo & qkeys & Hlinks & Hrows & Hkeys & Hki & Hquanta).
  exists ql, qkeys. split_and!; [done..| | |].
  - rewrite Hquanta. apply length_omap_le.
  - apply forM_Ok, Forall2_length in Hkeys. rewrite Hkeys.
    apply length_firstOccurrences.
  - intros Hskip. rewrite Hquanta. apply length_omap_all.
    intros k Hk. rewrite <-Hki in Hk.
    rewrite (makeNodes_unfold _ _ _ _ _ _ Hlinks Hrows) in Hmake.
    apply bind_Ok in Hmake as (qs & Hqs & _).
    destruct (makeQuanta_succeeds _ _ _ _ _ _ _ Hqs Hk) as [o Ho].
    unfold quantumOf. rewrite Ho.
    destruct (makeQuantum_decide_key self _ _ _ _ _ Hrows k Hk)
      as (qi & qo & _ & _ & Hdec).
    rewrite Hdec, Hskip in Ho. by eapply decideQuantum_keep.
Qed.

Lemma X13_number_of_quanta_witness :
  let rows := [example.row 1 5 None; example.row 2 5 None; example.row 1 5 None] in
  ∃ qgraph,
    _makeGraph_unitVerse (example.builder rows false) [example.taskA] rows
      = Ok qgraph ∧
    Forall (λ nodes, length (quanta nodes) ≤ 3) qgraph.
Proof.
  intros rows.
  assert (Hrun : ∃ qgraph,
            _makeGraph_unitVerse (example.builder rows false) [example.taskA] rows
              = Ok qgraph) by (eexists; reflexivity).
  destruct Hrun as [qgraph Hrun]. exists qgraph. split; [exact Hrun|].
  pose proof (X13_number_of_quanta _ _ _ _ Hrun) as Hall.
  apply Forall_forall. intros nodes [i Hi]%list_elem_of_lookup.
  destruct (Forall2_lookup_r _ _ _ _ _ Hall Hi)
    as (t & _ & ql & qkeys & _ & _ & Hle & Hrows & _).
  simpl in Hrows. lia.
Defined.

(** X14. Without [skipExisting], a returned graph leaves no row out: for
    every row and every input dataset type of a task, the node of the task
    has a quantum with an input reference of the data id of the row's
    reference, itself read from a row for that dataset type; and so for the
    output dataset types and the output references. *)
Theorem X14_every_row_is_covered self taskDatasets unitVerse qgraph :
  skipExisting self = false →
  _makeGraph_unitVerse self taskDatasets unitVerse = Ok qgraph →
  Forall2 (λ taskDss nodes,
             ∀ row c ref,
               row ∈ unitVerse → row_datasetRefs row !! c = Some ref →
               (c ∈ inputs taskDss →
                  ∃ q ref', q ∈ quanta nodes ∧ ref' ∈ butler.predictedInputs q ∧
                            dataId ref' = dataId ref ∧
                            ∃ row', row' ∈ unitVerse ∧
                                    row_datasetRefs row' !! c = Some ref') ∧
               (c ∈ outputs taskDss →
                  ∃ q ref', q ∈ quanta nodes ∧ ref' ∈ butler.outputs q ∧
                            dataId ref' = dataId ref ∧
                            ∃ row', row' ∈ unitVerse ∧
                                    row_datasetRefs row' !! c = Some ref'))
          taskDatasets qgraph.
Proof.
  intros Hskip Hgraph%makeGraph_unitVerse_nodes.
  eapply Forall2_impl; [done|]. intros t n Hmake; simpl in Hmake |- *.
  intros row c ref Hrow Href.
  destruct (makeNodes_order _ _ _ _ Hmake)
    as (ql & tqi & tqo & qkeys & Hlinks & Hrows & _ & _ & Hquanta).
  destruct (groupRows_spec _ _ _ _ _ Hrows) as (Hi & Ho & _).
  assert (Hread : succeeds (quantumKey ql row)).
  { assert (Hall : Forall (rowReadable t ql) unitVerse)
      by (apply groupRows_succeeds; by eexists).
    by apply (proj1 (Forall_forall _ _) Hall row Hrow). }
  destruct Hread as [k Hk].
  assert (Hin : k ∈ dict.keys tqi) by (apply Hi; eauto).
  destruct (makeQuantum_decide_key self _ _ _ _ _ Hrows k Hin)
    as (qi & qo & Hgi & Hgo & Hdec).
  pose proof Hmake as Hmake'.
  rewrite (makeNodes_unfold _ _ _ _ _ _ Hlinks Hrows) in Hmake'.
  apply bind_Ok in Hmake' as (qs & Hqs & [= <-]); simpl.
  destruct (makeQuanta_succeeds _ _ _ _ _ _ _ Hqs Hin) as [o Ho'].
  rewrite Hdec, Hskip in Ho'.
  destruct (decideQuantum_keep _ _ _ _ Ho') as [q ->].
  apply decideQuantum_Some in Ho' as Hq. destruct Hq as [-> _].
  assert (Hmem : butler.mkQuantum (chainValues qi) (chainValues qo) ∈ qs).
  { apply makeQuanta_Ok in Hqs as (made & Hmade & ->).
    apply list_elem_of_omap.
    apply list_elem_of_lookup in Hin as [i Hi'].
    destruct (Forall2_lookup_l _ _ _ _ _ Hmade Hi') as (o & Hlook & Hmk).
    exists o. split; [by eapply list_elem_of_lookup_2|].
    rewrite Hdec, Hskip in Hmk. congruence. }
  assert (Hbucket : ∀ cs (tq : TaskQuanta) q0,
            grouped ql cs unitVerse tq → dict.get tq k = Some q0 → c ∈ cs →
            ∃ ref', ref' ∈ chainValues q0 ∧ dataId ref' = dataId ref ∧
                    ∃ row', row' ∈ unitVerse ∧
                            row_datasetRefs row' !! c = Some ref').
  { intros cs tq q0 (_ & _ & Hq0) Hget Hc.
    destruct (Hq0 _ _ Hget) as (_ & Hkeys & Hb).
    apply Hkeys, get_is_Some in Hc as [b Hgb].
    destruct (Hb _ _ Hgb) as (_ & Horig & Hall).
    destruct (Hall _ _ Hrow Hk Href) as [ref' Hget'].
    apply get_Some_elem_of in Hget' as Hin'.
    destruct (Horig _ _ Hin') as (Hkey & row' & Hrow' & _ & Href').
    exists ref'. split_and!.
    - unfold chainValues. apply elem_of_concat. exists (dict.values b). split.
      + apply elem_of_values. by eexists.
      + apply list_elem_of_fmap. exists b. split; [done|].
        apply elem_of_values. exists c. by apply get_Some_elem_of.
    - symmetry. by apply dataRefKey_inj.
    - by exists row'. }
  split; intros Hc.
  - destruct (Hbucket _ _ _ Hi Hgi Hc) as (ref' & ? & ? & ?).
    by exists (butler.mkQuantum (chainValues qi) (chainValues qo)), ref'.
  - destruct (Hbucket _ _ _ Ho Hgo Hc) as (ref' & ? & ? & ?).
    by exists (butler.mkQuantum (chainValues qi) (chainValues qo)), ref'.
Qed.

Lemma X14_every_row_is_covered_witness :
  let rows := [example.row 1 5 None; example.row 2 5 None] in
  ∃ qgraph,
    _makeGraph_unitVerse (example.builder rows false) [example.taskA] rows
      = Ok qgraph ∧
    Forall (λ nodes, ∃ q ref', q ∈ quanta nodes ∧
                               ref' ∈ butler.predictedInputs q ∧
                               dataId ref' = example.at_ 2 5) qgraph.
Proof.
  intros rows.
  assert (Hrun : ∃ qgraph,
            _makeGraph_unitVerse (example.builder rows false) [example.taskA] rows
              = Ok qgraph) by (eexists; reflexivity).
  destruct Hrun as [qgraph Hrun]. exists qgraph. split; [exact Hrun|].
  pose proof (X14_every_row_is_covered (example.builder rows false) _ _ _
                eq_refl Hrun) as Hall.
  apply Forall_forall. intros nodes [i Hi]%list_elem_of_lookup.
  destruct (Forall2_lookup_r _ _ _ _ _ Hall Hi) as (t & Ht & Hcover).
  apply list_elem_of_lookup_2, list_elem_of_singleton in Ht as ->.
  destruct (Hcover (example.row 2 5 None) example.raw
              (mkDatasetRef example.raw (example.at_ 2 5) (Some 102%Z)))
    as [Hins _]; [right; left|reflexivity|].
  destruct Hins as (q & ref' & Hq & Href' & Hid & _); [left|].
  exists q, ref'. split; [exact Hq|]. split; [exact Href'|exact Hid].
Defined.

(** ** [GraphBuilder._makeGraph]: rows that repeat, and no rows *)

Lemma putRef_same (q : QuantumIO) c ref b :
  dict.get q c = Some b → dict.get b (_dataRefKey ref) = Some ref →
  putRef q c ref = q.
Proof.
  intros Hq Hb. unfold putRef. rewrite Hq; simpl.
  rewrite (setitem_same b) by done. by apply setitem_same.
Qed.

(** Once a row went into the buckets of a quantum key, it goes in again
    without a change. *)
Lemma addDataRefs_again row cs (q q' : QuantumIO) :
  addDataRefs row cs q = Ok q' → addDataRefs row cs q' = Ok q'.
Proof.
  intros Hadd.
  assert (Hstored : ∀ c, c ∈ cs →
            ∃ ref b, row_datasetRefs row !! c = Some ref ∧
                     dict.get q' c = Some b ∧
                     dict.get b (_dataRefKey ref) = Some ref).
  { intros c Hc. pose proof (addDataRefs_get _ _ _ _ c Hadd) as Hget.
    rewrite decide_True in Hget by done.
    destruct (proj1 (addDataRefs_succeeds row cs q) (ex_intro _ _ Hadd) c Hc)
      as [ref Href].
    rewrite Href in Hget; simpl in Hget.
    exists ref, (dict.setitem (default dict.empty (dict.get q c))
                              (_dataRefKey ref) ref).
    split_and!; [done..|]. rewrite get_setitem. by rewrite decide_True. }
  clear Hadd. induction cs as [|c cs IH]; [done|].
  rewrite addDataRefs_cons.
  destruct (Hstored c) as (ref & b & Href & Hq & Hb); [left|].
  apply getitem_Ok in Href. rewrite Href; simpl.
  rewrite (putRef_same _ _ _ _ Hq Hb). apply IH.
  intros ??. apply Hstored. by right.
Qed.

Lemma addRow_again taskDss qlinks acc acc' row :
  addRow taskDss qlinks acc row = Ok acc' →
  addRow taskDss qlinks acc' row = Ok acc'.
Proof.
  destruct acc as [tqi tqo]. rewrite addRow_unfold.
  intros (k & Hk & (qi & Hqi & (qo & Hqo & [= <-])%bind_Ok)%bind_Ok)%bind_Ok.
  rewrite addRow_unfold, Hk; simpl.
  rewrite !get_setitem, !decide_True by done; simpl.
  rewrite (addDataRefs_again _ _ _ _ Hqi); simpl.
  rewrite (addDataRefs_again _ _ _ _ Hqo); simpl.
  by rewrite !setitem_setitem.
Qed.

Lemma groupRows_repeated taskDss qlinks rows row :
  groupRows taskDss qlinks (rows ++ [row; row])
  = groupRows taskDss qlinks (rows ++ [row]).
Proof.
  unfold groupRows. change [row; row] with ([row] ++ [row]).
  rewrite app_assoc, (foldM_snoc _ _ (rows ++ [row])).
  destruct (foldM _ _ (rows ++ [row])) as [acc'|e] eqn:Hfold; simpl; [|done].
  rewrite foldM_snoc in Hfold.
  apply bind_Ok in Hfold as (acc & _ & Hrow).
  by apply addRow_again in Hrow.
Qed.

Lemma foldM_ext {E A B} (f g : B → A → result E B) acc xs :
  (∀ acc x, f acc x = g acc x) → foldM f acc xs = foldM g acc xs.
Proof.
  intros Hfg. revert acc. induction xs as [|x xs IH]; intros acc; simpl; [done|].
  rewrite Hfg. destruct (g acc x); simpl; [apply IH|done].
Qed.

Lemma makeGraph_unitVerse_cons self taskDss taskDatasets unitVerse :
  _makeGraph_unitVerse self (taskDss :: taskDatasets) unitVerse
  = nodes ← makeNodes self unitVerse taskDss;
    qgraph ← _makeGraph_unitVerse self taskDatasets unitVerse;
    Ok (nodes :: qgraph).
Proof.
  unfold _makeGraph_unitVerse at 1; simpl.
  destruct (makeNodes self unitVerse taskDss) as [n|]; simpl; [|done].
  apply makeGraph_unitVerse_acc.
Qed.

(** X15. A row that comes twice in a row counts once: the build on rows
    that end with the same row twice is the build on the rows with that row
    once, graph or exception. *)
Theorem X15_repeated_row_is_absorbed self taskDatasets rows row :
  _makeGraph_unitVerse self taskDatasets (rows ++ [row; row])
  = _makeGraph_unitVerse self taskDatasets (rows ++ [row]).
Proof.
  unfold _makeGraph_unitVerse. apply foldM_ext. intros acc t.
  unfold makeNodes. destruct (quantumLinks self t) as [ql|]; simpl; [|done].
  by rewrite groupRows_repeated.
Qed.

Lemma makeNodes_no_rows self taskDss :
  makeNodes self [] taskDss =
  match quantumLinks self taskDss with
  | Ok _ => Ok (mkQuantumGraphNodes (taskDef taskDss) [])
  | Raise _ => Raise KeyError
  end.
Proof.
  unfold makeNodes.
  destruct (quantumLinks self taskDss) as [ql|e] eqn:Hql; simpl; [done|].
  by apply quantumLinks_KeyError in Hql as ->.
Qed.

(** X16. Without rows the graph has a node without quanta for every task,
    provided the quantum units of every task are known to the schema;
    when those of some task are not, the build raises [KeyError], rows or
    no rows. *)
Theorem X16_graph_without_rows self taskDatasets :
  (Forall (λ taskDss, succeeds (quantumLinks self taskDss)) taskDatasets →
   _makeGraph_unitVerse self taskDatasets []
     = Ok ((λ taskDss, mkQuantumGraphNodes (taskDef taskDss) []) <$> taskDatasets)) ∧
  (Exists (λ taskDss, raises (quantumLinks self taskDss)) taskDatasets →
   _makeGraph_unitVerse self taskDatasets [] = Raise KeyError).
Proof.
  split.
  - intros Hall. apply makeGraph_unitVerse_nodes.
    apply Forall2_fmap_r, Forall_Forall2_diag.
    eapply Forall_impl; [done|]. intros t [ql Hql]; simpl.
    by rewrite makeNodes_no_rows, Hql.
  - intros Hex. induction taskDatasets as [|t l IH]; [by apply Exists_nil in Hex|].
    rewrite makeGraph_unitVerse_cons, makeNodes_no_rows.
    destruct (quantumLinks self t) as [ql|e] eqn:Hql; simpl; [|done].
    rewrite IH; [done|].
    apply Exists_cons in Hex as [[e He]|Hex]; [congruence|done].
Qed.

(** ** [GraphBuilder.makeGraph] *)

Lemma deref_frame (h h' : heap.t) l :
  h' !! l = h !! l → heap.deref h' l = heap.deref h l.
Proof. intros Heq. unfold heap.deref. by rewrite !lookup_total_alt, Heq. Qed.

Lemma resolved_class self original td :
  resolved self original td → is_Some (taskClass td).
Proof.
  unfold resolved. destruct (taskClass original) as [c|] eqn:Hclass.
  - intros ->. by rewrite Hclass.
  - by intros (tClass & tName & _ & ->).
Qed.

(** One call of [_loadTaskClass], as the loop over the pipeline sees it. *)
Lemma loadTaskClass_step self (h h' : heap.t) l l' :
  _loadTaskClass self h l = Ok (l', h') →
  (∀ l0, l0 ∈ dom h → h' !! l0 = h !! l0) ∧
  l' ∈ dom h' ∧
  resolved self (heap.deref h l) (heap.deref h' l') ∧
  (is_Some (taskClass (heap.deref h l)) → h' = h) ∧
  (taskClass (heap.deref h l) = None → size h' = S (size h)).
Proof.
  unfold _loadTaskClass, resolved.
  destruct (taskClass (heap.deref h l)) as [c|] eqn:Hclass.
  - intros [= <- <-]. split_and!; [done| |done|done|done].
    apply elem_of_dom. unfold heap.deref in Hclass.
    rewrite lookup_total_alt in Hclass.
    destruct (h !! l); [by eexists|done].
  - destruct (loadTaskClass _ _) as [[tClass tName]|] eqn:Hload; simpl; [|done].
    intros [= <- <-].
    unfold heap.set_taskName, heap.set_taskClass, heap.deref.
    set (l' := fresh (dom h)).
    assert (Hfresh : l' ∉ dom h) by apply is_fresh.
    rewrite !lookup_total_insert_eq, !insert_insert_eq; simpl.
    split_and!.
    + intros l0 Hl0. rewrite lookup_insert_ne; [done|]. by intros <-.
    + rewrite dom_insert_L. set_solver.
    + by exists tClass, tName.
    + by intros [? ?].
    + intros _. apply map_size_insert_None. by apply not_elem_of_dom.
Qed.

(** The loop over the pipeline: what was there stays, and every returned
    reference is to an object with a loaded class. *)
Lemma loadTaskClasses_loaded self pipeline taskList0 (h0 : heap.t) taskList (h' : heap.t) :
  foldM (λ '(taskList, h) taskDef,
           '(taskDef, h) ← _loadTaskClass self h taskDef;
           Ok (taskList ++ [taskDef], h))
        (taskList0, h0) pipeline = Ok (taskList, h') →
  ∃ taskList1,
    taskList = taskList0 ++ taskList1 ∧
    (∀ l0, l0 ∈ dom h0 → h' !! l0 = h0 !! l0) ∧
    Forall (λ l', is_Some (taskClass (heap.deref h' l'))) taskList1.
Proof.
  revert taskList0 h0. induction pipeline as [|l ls IH]; intros tl0 h0; simpl.
  - intros [= <- <-]. exists []. rewrite app_nil_r. split_and!; [done..|constructor].
  - destruct (_loadTaskClass self h0 l) as [[l1 h1]|] eqn:Hstep; simpl; [|done].
    intros (tl1 & -> & Hframe & Hall)%IH.
    destruct (loadTaskClass_step _ _ _ _ _ Hstep)
      as (Hframe1 & Hdom1 & Hres1%resolved_class & _).
    assert (Hsub : ∀ l0, l0 ∈ dom h0 → l0 ∈ dom h1).
    { intros l0 Hl0. apply elem_of_dom. rewrite Hframe1 by done.
      by apply elem_of_dom. }
    exists (l1 :: tl1). split_and!.
    + by rewrite <-app_assoc.
    + intros l0 Hl0. rewrite Hframe by (by apply Hsub). by apply Hframe1.
    + constructor; [|done].
      rewrite (deref_frame h1 h') by (by apply Hframe). done.
Qed.

(** The loop over a pipeline of objects of the heap [h]: each returned
    reference is to the resolved form of the original, and the heap grows
    by one object per unresolved entry. *)
Lemma loadTaskClasses_loop self (h : heap.t) pipeline taskList0 (h0 : heap.t)
    taskList (h' : heap.t) :
  (∀ l0, l0 ∈ dom h → h0 !! l0 = h !! l0) →
  Forall (λ l, l ∈ dom h) pipeline →
  foldM (λ '(taskList, h) taskDef,
           '(taskDef, h) ← _loadTaskClass self h taskDef;
           Ok (taskList ++ [taskDef], h))
        (taskList0, h0) pipeline = Ok (taskList, h') →
  ∃ taskList1,
    taskList = taskList0 ++ taskList1 ∧
    Forall2 (λ l l', resolved self (heap.deref h l) (heap.deref h' l'))
            pipeline taskList1 ∧
    size h' = size h0 + length (unresolved h pipeline).
Proof.
  unfold unresolved.
  revert taskList0 h0. induction pipeline as [|l ls IH]; intros tl0 h0 Hagree Hin; simpl.
  - intros [= <- <-]. exists []. rewrite app_nil_r.
    split_and!; [done|constructor|]. simpl. lia.
  - apply Forall_cons in Hin as [Hl Hls].
    destruct (_loadTaskClass self h0 l) as [[l1 h1]|] eqn:Hstep; simpl; [|done].
    intros Hrest.
    destruct (loadTaskClass_step _ _ _ _ _ Hstep)
      as (Hframe1 & Hdom1 & Hres1 & Hsame1 & Hnew1).
    assert (Hd : heap.deref h0 l = heap.deref h l)
      by (apply deref_frame; by apply Hagree).
    rewrite Hd in Hres1, Hsame1, Hnew1.
    assert (Hsub : ∀ l0, l0 ∈ dom h → l0 ∈ dom h0).
    { intros l0 Hl0. apply elem_of_dom. rewrite Hagree by done.
      by apply elem_of_dom. }
    assert (Hagree1 : ∀ l0, l0 ∈ dom h → h1 !! l0 = h !! l0).
    { intros l0 Hl0. rewrite Hframe1 by (by apply Hsub). by apply Hagree. }
    destruct (loadTaskClasses_loaded _ _ _ _ _ _ Hrest) as (tl1' & _ & Hframe & _).
    destruct (IH _ _ Hagree1 Hls Hrest) as (tl1 & -> & Hrel & Hsize).
    assert (Hkeep1 : heap.deref h' l1 = heap.deref h1 l1)
      by (apply deref_frame; by apply Hframe).
    exists (l1 :: tl1). split_and!.
    + by rewrite <-app_assoc.
    + constructor; [|done]. by rewrite Hkeep1.
    + rewrite Hsize, filter_cons.
      destruct (taskClass (heap.deref h l)) as [c|] eqn:Hclass.
      * rewrite Hsame1 by (by eexists).
        rewrite decide_False by done. lia.
      * rewrite Hnew1 by done.
        rewrite decide_True by done. simpl. lia.
Qed.

Lemma lift_Ok {A} (m : res A) (a : A) : lift m = Ok a ↔ m = Ok a.
Proof. destruct m; simpl; naive_solver. Qed.

Lemma lift_Raise {A} (m : res A) (e : PyException) :
  lift m = Raise e ↔ ∃ e', m = Raise e' ∧ e = BuilderException e'.
Proof. destruct m; simpl; naive_solver. Qed.

Section makeGraph_lemmas_more.
Context {Node : Type}.
Variable parse : string → result string (option Node).
Variable str : Node → string.
Variable getInputDatasetTypes :
  TaskClass → Config → res (option (dict.t string DatasetType)).
Variable getOutputDatasetTypes :
  TaskClass → Config → res (option (dict.t string DatasetType)).

Lemma collectDatasetTypes_taskDef h l taskDss :
  collectDatasetTypes getInputDatasetTypes getOutputDatasetTypes h l = Ok taskDss →
  taskDef taskDss = heap.deref h l.
Proof.
  unfold collectDatasetTypes.
  destruct (taskClass (heap.deref h l)) as [c|]; [|done].
  by intros (i & _ & (o & _ & [= <-])%bind_Ok)%bind_Ok.
Qed.

Lemma collectDatasetTypes_AttributeError h l a :
  collectDatasetTypes getInputDatasetTypes getOutputDatasetTypes h l
    = Raise (AttributeError a) →
  taskClass (heap.deref h l) = None.
Proof.
  unfold collectDatasetTypes.
  destruct (taskClass (heap.deref h l)) as [c|]; [|done].
  intros [(e & _ & [=])%lift_Raise
         |(i & _ & [(e & _ & [=])%lift_Raise|(o & _ & [=])]%bind_Raise)]%bind_Raise.
Qed.

Lemma collect_loop h taskList acc taskDatasets :
  foldM (λ taskDatasets taskDef,
           taskDss ← collectDatasetTypes getInputDatasetTypes
                                         getOutputDatasetTypes h taskDef;
           Ok (taskDatasets ++ [taskDss]))
        acc taskList = Ok taskDatasets →
  ∃ taskDatasets1,
    taskDatasets = acc ++ taskDatasets1 ∧
    Forall2 (λ l taskDss, taskDef taskDss = heap.deref h l) taskList taskDatasets1.
Proof.
  revert acc. induction taskList as [|l ls IH]; intros acc; simpl.
  - intros [= <-]. exists []. by rewrite app_nil_r.
  - intros (acc' & (t & Ht & [= <-])%bind_Ok & (ts & -> & Hts)%IH)%bind_Ok.
    exists (t :: ts). split; [by rewrite <-app_assoc|].
    constructor; [|done]. by apply collectDatasetTypes_taskDef.
Qed.

(** The stages of a run of [makeGraph] that returns. *)
Lemma makeGraph_stages self h pipeline originInfo userQuery qgraph h' :
  makeGraph parse str getInputDatasetTypes getOutputDatasetTypes
            self h pipeline originInfo userQuery = Ok (qgraph, h') →
  ∃ taskList taskDatasets ins outs,
    loadTaskClasses self h pipeline = Ok (taskList, h') ∧
    Forall2 (λ l taskDss, taskDef taskDss = heap.deref h' l) taskList taskDatasets ∧
    _makeFullIODatasetTypes taskDatasets = Ok (ins, outs) ∧
    _makeGraph parse str self taskDatasets ins outs originInfo userQuery = Ok qgraph.
Proof.
  unfold makeGraph.
  intros ([taskList h1] & Hload%lift_Ok & Hrest)%bind_Ok.
  apply bind_Ok in Hrest as (taskDatasets & Hcollect & Hrest).
  apply bind_Ok in Hrest as ([ins outs] & Hio%lift_Ok & Hrest).
  apply bind_Ok in Hrest as (g & Hg%lift_Ok & [= <- <-]).
  apply collect_loop in Hcollect as (tds & -> & Hcollect).
  by exists taskList, tds, ins, outs.
Qed.

(** The node of a task carries the definition of its tuple. *)
Lemma makeGraph_node_taskDefs self taskDatasets ins outs originInfo userQuery qgraph :
  _makeGraph parse str self taskDatasets ins outs originInfo userQuery = Ok qgraph →
  Forall2 (λ taskDss nodes, node_taskDef nodes = taskDef taskDss) taskDatasets qgraph.
Proof.
  intros (pq & rows & _ & _ & Hg%makeGraph_unitVerse_nodes)%makeGraph_Ok.
  eapply Forall2_impl; [exact Hg|].
  intros t n Hn. by apply makeNodes_taskDef in Hn.
Qed.

(** X17. A run of [makeGraph] that returns leaves every object that the
    caller had as it was: the heap afterwards extends the heap before, so
    no definition of the pipeline has changed, whether it was resolved or
    not. *)
Theorem X17_makeGraph_keeps_the_pipeline
    self (h : heap.t) pipeline originInfo userQuery qgraph (h' : heap.t) :
  makeGraph parse str getInputDatasetTypes getOutputDatasetTypes
            self h pipeline originInfo userQuery = Ok (qgraph, h') →
  h ⊆ h'.
Proof.
  intros (taskList & tds & ins & outs & Hload & _)%makeGraph_stages.
  unfold loadTaskClasses in Hload.
  apply loadTaskClasses_loaded in Hload as (tl & _ & Hframe & _).
  apply map_subseteq_spec. intros l td Hl.
  rewrite Hframe; [done|]. apply elem_of_dom. by eexists.
Qed.

(** X18. [makeGraph] never fails on a definition without a class: a
    factory that returns gives a class, so after the first stage every
    definition of the task list has one, and the lookup of
    [getInputDatasetTypes] on [None] does not happen, for any pipeline,
    factory and registry. *)
Theorem X18_makeGraph_no_AttributeError
    self (h : heap.t) pipeline originInfo userQuery a :
  makeGraph parse str getInputDatasetTypes getOutputDatasetTypes
            self h pipeline originInfo userQuery ≠ Raise (AttributeError a).
Proof.
  unfold makeGraph. intros Hrun.
  apply bind_Raise in Hrun as [(e & _ & [=])%lift_Raise|([tl h1] & Hload%lift_Ok & Hrun)].
  apply loadTaskClasses_loaded in Hload as (tl1 & Htl & _ & Hloaded).
  simpl in Htl. subst tl1.
  apply bind_Raise in Hrun as [Hcollect|(tds & _ & Hrun)].
  - apply foldM_Raise_inv in Hcollect as (l & acc & Hl & Hbody).
    apply bind_Raise in Hbody as [Hbody|(t & _ & [=])].
    apply collectDatasetTypes_AttributeError in Hbody.
    rewrite Forall_forall in Hloaded. destruct (Hloaded l Hl) as [c Hc]. congruence.
  - apply bind_Raise in Hrun as [(e & _ & [=])%lift_Raise|([ins outs] & _ & Hrun)].
    apply bind_Raise in Hrun as [(e & _ & [=])%lift_Raise|(g & _ & [=])].
Qed.

(** X19. The graph that [makeGraph] returns for a pipeline of objects of
    the caller has one node per entry of the pipeline, in order, and the
    task definition of the node is the resolved form of the entry: the
    entry itself when it has a class, otherwise the definition with the
    class and name of the factory and the entry's configuration and
    label. *)
Theorem X19_nodes_follow_the_pipeline
    self (h : heap.t) pipeline originInfo userQuery qgraph (h' : heap.t) :
  Forall (λ l, l ∈ dom h) pipeline →
  makeGraph parse str getInputDatasetTypes getOutputDatasetTypes
            self h pipeline originInfo userQuery = Ok (qgraph, h') →
  Forall2 (λ l nodes, resolved self (heap.deref h l) (node_taskDef nodes))
          pipeline qgraph.
Proof.
  intros Hin (taskList & tds & ins & outs & Hload & Htds & _ & Hg)%makeGraph_stages.
  unfold loadTaskClasses in Hload.
  apply (loadTaskClasses_loop self h) in Hload as (tl & Htl & Hrel & _); [|done..].
  simpl in Htl. subst tl.
  apply makeGraph_node_taskDefs in Hg.
  revert tds qgraph Htds Hg.
  induction Hrel as [|l l' ls ls' Hres _ IH]; intros tds g Htds Hg.
  - apply Forall2_nil_inv_l in Htds as ->.
    apply Forall2_nil_inv_l in Hg as ->. constructor.
  - apply Forall_cons in Hin as [_ Hin].
    apply Forall2_cons_inv_l in Htds as (t & tds' & Ht & Htds & ->).
    apply Forall2_cons_inv_l in Hg as (n & g' & Hn & Hg & ->).
    constructor; [|by apply IH with tds'].
    by rewrite Hn, Ht.
Qed.

(** X20. [makeGraph] creates one object per entry of the pipeline that has
    no class, counted with repetitions, and no other: the heap afterwards
    has that many objects more. *)
Theorem X20_one_copy_per_unresolved_entry
    self (h : heap.t) pipeline originInfo userQuery qgraph (h' : heap.t) :
  Forall (λ l, l ∈ dom h) pipeline →
  makeGraph parse str getInputDatasetTypes getOutputDatasetTypes
            self h pipeline originInfo userQuery = Ok (qgraph, h') →
  size h' = size h + length (unresolved h pipeline).
Proof.
  intros Hin (taskList & tds & ins & outs & Hload & _)%makeGraph_stages.
  unfold loadTaskClasses in Hload.
  by apply (loadTaskClasses_loop self h) in Hload as (tl & _ & _ & Hsize).
Qed.
End makeGraph_lemmas_more.

Lemma pipeline_example_objects :
  Forall (λ l, l ∈ dom pipeline_example.objects) pipeline_example.pipeline.
Proof. repeat constructor; apply elem_of_dom; eexists; reflexivity. Qed.

(** The pipeline of [TaskA], by name only, and [TaskB], on one row. *)
Lemma X17_makeGraph_keeps_the_pipeline_witness :
  ∃ qgraph h',
    pipeline_example.run [example.row 1 5 None] = Ok (qgraph, h') ∧
    pipeline_example.objects ⊆ h'.
Proof.
  assert (Hrun : ∃ qgraph h',
            pipeline_example.run [example.row 1 5 None] = Ok (qgraph, h'))
    by (do 2 eexists; reflexivity).
  destruct Hrun as (qgraph & h' & Hrun).
  exists qgraph, h'. split; [exact Hrun|].
  eapply X17_makeGraph_keeps_the_pipeline. exact Hrun.
Defined.

Lemma X19_nodes_follow_the_pipeline_witness :
  ∃ qgraph h',
    pipeline_example.run [example.row 1 5 None] = Ok (qgraph, h') ∧
    Forall2 (λ l nodes,
               resolved (example.builder [example.row 1 5 None] true)
                        (heap.deref pipeline_example.objects l)
                        (node_taskDef nodes))
            pipeline_example.pipeline qgraph.
Proof.
  assert (Hrun : ∃ qgraph h',
            pipeline_example.run [example.row 1 5 None] = Ok (qgraph, h'))
    by (do 2 eexists; reflexivity).
  destruct Hrun as (qgraph & h' & Hrun).
  exists qgraph, h'. split; [exact Hrun|].
  eapply X19_nodes_follow_the_pipeline;
    [exact pipeline_example_objects|exact Hrun].
Defined.

Lemma X20_one_copy_per_unresolved_entry_witness :
  ∃ qgraph h',
    pipeline_example.run [example.row 1 5 None] = Ok (qgraph, h') ∧
    size h' = size pipeline_example.objects
              + length (unresolved pipeline_example.objects
                                   pipeline_example.pipeline).
Proof.
  assert (Hrun : ∃ qgraph h',
            pipeline_example.run [example.row 1 5 None] = Ok (qgraph, h'))
    by (do 2 eexists; reflexivity).
  destruct Hrun as (qgraph & h' & Hrun).
  exists qgraph, h'. split; [exact Hrun|].
  eapply X20_one_copy_per_unresolved_entry;
    [exact pipeline_example_objects|exact Hrun].
Defined.
